(** * s7.hpp: the marshaling bridge between native code and the s7 interpreter

    A shallow embedding of [src/s7.hpp]: the value converter ([is], [to],
    [from]), the call adapter ([call_fn], [call_fn_varargs]), the overload
    resolver ([_match_fn], [match_fn], [_make_overload]), the arithmetic
    operator substitution ([make_method_op_function],
    [usertype_add_method_op]), the equality hook installed by
    [make_usertype], and the arity helpers ([vmin], [vmax]). *)

From Stdlib Require Import ZArith List Bool Lia.
From Stdlib Require Import Floats.SpecFloat.
From stdpp Require Import gmap strings list.

Local Open Scope Z_scope.
Local Open Scope string_scope.

(** ** The kinds of dynamic values ([enum class Type]) *)

Module Ty.
Inductive t :=
| Any | Undefined | Unspecified | Nil | Eof | Let | OpenLet
| Boolean | Integer | Real | String | Character | Ratio | Complex
| Vector | IntVector | FloatVector | ByteVector | ComplexVector
| List | CPointer | CObject | RandomState | HashTable
| InputPort | OutputPort | Syntax | Symbol | Keyword
| Procedure | Macro | Dilambda | Values | Iterator
| BigNum
| Unknown.

Definition eqb (a b : t) : bool :=
  match a, b with
  | Any, Any | Undefined, Undefined | Unspecified, Unspecified | Nil, Nil
  | Eof, Eof | Let, Let | OpenLet, OpenLet | Boolean, Boolean
  | Integer, Integer | Real, Real | String, String | Character, Character
  | Ratio, Ratio | Complex, Complex | Vector, Vector
  | IntVector, IntVector | FloatVector, FloatVector
  | ByteVector, ByteVector | ComplexVector, ComplexVector | List, List
  | CPointer, CPointer | CObject, CObject | RandomState, RandomState
  | HashTable, HashTable | InputPort, InputPort | OutputPort, OutputPort
  | Syntax, Syntax | Symbol, Symbol | Keyword, Keyword
  | Procedure, Procedure | Macro, Macro | Dilambda, Dilambda
  | Values, Values | Iterator, Iterator | BigNum, BigNum
  | Unknown, Unknown => true
  | _, _ => false
  end.
End Ty.

Definition scheme_type_to_string (t : Ty.t) : string :=
  match t with
  | Ty.Any => "s7_pointer"
  | Ty.Undefined => "undefined"
  | Ty.Unspecified => "unspecified"
  | Ty.Nil => "null"
  | Ty.Eof => "eof-object"
  | Ty.Let => "let"
  | Ty.OpenLet => "openlet"
  | Ty.Boolean => "boolean"
  | Ty.Integer => "integer"
  | Ty.Real => "real"
  | Ty.String => "string"
  | Ty.Character => "char"
  | Ty.Ratio => "rational"
  | Ty.Complex => "complex"
  | Ty.Vector => "vector"
  | Ty.IntVector => "int-vector"
  | Ty.FloatVector => "float-vector"
  | Ty.ByteVector => "byte-vector"
  | Ty.ComplexVector => "complex-vector"
  | Ty.List => "list"
  | Ty.CPointer => "c-pointer"
  | Ty.CObject => "c-object"
  | Ty.RandomState => "random-state"
  | Ty.HashTable => "hash-table"
  | Ty.InputPort => "input-port"
  | Ty.OutputPort => "output-port"
  | Ty.Syntax => "syntax"
  | Ty.Symbol => "symbol"
  | Ty.Keyword => "keyword"
  | Ty.Procedure => "procedure"
  | Ty.Macro => "macro"
  | Ty.Dilambda => "dilambda"
  | Ty.Values => "values"
  | Ty.Iterator => "iterator"
  | Ty.BigNum => "bignum"
  | Ty.Unknown => "unknown"
  end.

(** ** Native numbers

    [s7_int] is a 64-bit signed integer and [s7_double] an IEEE-754 binary64
    number.  The narrower native types are those of the LP64 data model. *)

Definition wrap (w : Z) (z : Z) : Z :=
  (z + 2 ^ (w - 1)) mod 2 ^ w - 2 ^ (w - 1).

Definition in_range (w : Z) (z : Z) : Prop :=
  - 2 ^ (w - 1) <= z < 2 ^ (w - 1).

Definition double := spec_float.
Definition float := spec_float.

(** [static_cast<float>] of a double: rounding to binary32. *)
Definition double_to_float (d : double) : float :=
  match d with
  | S754_finite s m e => binary_round 24 128 s m e
  | _ => d
  end.

(** The implicit conversion of a float to a double is exact. *)
Definition float_to_double (f : float) : double :=
  match f with
  | S754_finite s m e => binary_round 53 1024 s m e
  | _ => f
  end.

Definition int_to_double (i : Z) : double :=
  binary_normalize 53 1024 i 0 false.

(** A C string stops at its first NUL byte. *)
Fixpoint c_str (s : string) : string :=
  match s with
  | EmptyString => EmptyString
  | String c rest =>
      if Ascii.eqb c Ascii.zero then EmptyString else String c (c_str rest)
  end.

(** ** Dynamic values

    Modelled from the spec: the dynamic values of the embedded runtime,
    whose sources ([s7/s7.h], [s7.c]) are not part of the bridge.  They are
    the cells of the interpreter's heap, named after the constructors of the
    runtime's API.  A c-object carries its registry tag, the native object it
    boxes (the state of the [T] behind its [void *]) and a reference to the
    metadata container of its type; containers are shared and live in a
    store, so a cell only holds the container's address.  [opaque k] stands
    for a cell of any kind the bridge only ever tests through its predicate. *)

Inductive s7_value :=
| s7_nil
| s7_unspecified
| s7_undefined
| s7_eof_object
| s7_make_boolean (b : bool)
| s7_make_integer (i : Z)
| s7_make_real (d : double)
| s7_make_string_with_length (s : string)
| s7_make_character (c : Z)
| s7_make_symbol (name : string)
| s7_cons (a d : s7_value)
| c_object (tag : Z) (value : Z) (let_ : s7_value)
| s7_let (id : nat)
| procedure (id : nat)
| opaque (k : Ty.t).

(** [s7_pointer]: a handle that may be [nullptr]. *)
Abbreviation s7_pointer := (option s7_value).
Abbreviation nullptr := (@None s7_value).

Definition s7_make_string (s : string) : s7_value :=
  s7_make_string_with_length (c_str s).

Definition s7_t : s7_value := s7_make_boolean true.
Definition s7_f : s7_value := s7_make_boolean false.

(** *** Predicates, one per kind

    Modelled from the spec: the predicate-per-kind primitives of the
    runtime. *)

Definition s7_is_null (p : s7_value) : bool :=
  match p with s7_nil => true | _ => false end.
Definition s7_is_unspecified (p : s7_value) : bool :=
  match p with s7_unspecified => true | _ => false end.
Definition s7_is_boolean (p : s7_value) : bool :=
  match p with s7_make_boolean _ => true | _ => false end.
Definition s7_is_integer (p : s7_value) : bool :=
  match p with s7_make_integer _ => true | _ => false end.
(** The runtime's numeric tower: an integer is a real. *)
Definition s7_is_real (p : s7_value) : bool :=
  match p with
  | s7_make_real _ | s7_make_integer _ => true
  | opaque Ty.Ratio => true
  | _ => false
  end.
Definition s7_is_string (p : s7_value) : bool :=
  match p with s7_make_string_with_length _ => true | _ => false end.
Definition s7_is_character (p : s7_value) : bool :=
  match p with s7_make_character _ => true | _ => false end.
Definition s7_is_symbol (p : s7_value) : bool :=
  match p with s7_make_symbol _ => true | _ => false end.
Definition s7_is_pair (p : s7_value) : bool :=
  match p with s7_cons _ _ => true | _ => false end.
Definition s7_is_c_object (p : s7_value) : bool :=
  match p with c_object _ _ _ => true | _ => false end.
Definition s7_is_let (p : s7_value) : bool :=
  match p with s7_let _ => true | _ => false end.
Definition s7_is_procedure (p : s7_value) : bool :=
  match p with procedure _ => true | _ => false end.
Definition is_opaque (k : Ty.t) (p : s7_value) : bool :=
  match p with opaque k' => Ty.eqb k k' | _ => false end.

(** *** Accessors

    Modelled from the spec: the accessor-per-kind primitives of the
    runtime.  An accessor applied to a cell of another kind reads a field that is not
    there: the result is undefined ([None]). *)

Definition s7_boolean (p : s7_value) : bool :=
  match p with s7_make_boolean false => false | _ => true end.
Definition s7_integer (p : s7_value) : option Z :=
  match p with s7_make_integer i => Some i | _ => None end.
Definition s7_real (p : s7_value) : option double :=
  match p with
  | s7_make_real d => Some d
  | s7_make_integer i => Some (int_to_double i)
  | _ => None
  end.
Definition s7_string (p : s7_value) : option string :=
  match p with s7_make_string_with_length s => Some s | _ => None end.
Definition s7_string_length (p : s7_value) : option Z :=
  match p with
  | s7_make_string_with_length s => Some (Z.of_nat (String.length s))
  | _ => None
  end.
Definition s7_character (p : s7_value) : option Z :=
  match p with s7_make_character c => Some c | _ => None end.
Definition s7_car (p : s7_value) : option s7_value :=
  match p with s7_cons a _ => Some a | _ => None end.
Definition s7_cdr (p : s7_value) : option s7_value :=
  match p with s7_cons _ d => Some d | _ => None end.
Definition s7_c_object_type (p : s7_value) : Z :=
  match p with c_object tag _ _ => tag | _ => -1 end.
Definition s7_c_object_value (p : s7_value) : option Z :=
  match p with c_object _ v _ => Some v | _ => None end.
Definition s7_c_object_let (p : s7_value) : option s7_value :=
  match p with c_object _ _ l => Some l | _ => None end.

(** Modelled from the spec: the list primitives of the runtime.  A proper
    list of the interpreter, as the evaluator builds argument lists. *)
Definition s7_list (vs : list s7_value) : s7_value :=
  foldr s7_cons s7_nil vs.

(** Modelled from the spec: [s7_list_length], the length of a proper
    list, minus the number of pairs of a dotted one. *)
Fixpoint list_length_aux (p : s7_value) (n : Z) : Z :=
  match p with
  | s7_cons _ d => list_length_aux d (n + 1)
  | s7_nil => n
  | _ => - n
  end.
Definition s7_list_length (p : s7_value) : Z := list_length_aux p 0.

(** Modelled from the spec: [s7_list_ref]. *)
Fixpoint s7_list_ref (p : s7_value) (i : nat) : option s7_value :=
  match p, i with
  | s7_cons a _, O => Some a
  | s7_cons _ d, S i' => s7_list_ref d i'
  | _, _ => None
  end.

(** ** Native types and native values

    The template parameter [T] of [is], [to] and [from] ranges over the
    native types below; [t_usertype n] is a class registered (or not) with
    [make_usertype], whose values are [c_native n o], and [t_VarArgs T] the
    variadic marker [VarArgs<T>].
    Spans, vectors, raw pointers, [Function] and [Let] are not part of the
    modelled fragment. *)

Inductive ctype :=
| t_s7_pointer
| t_void
| t_bool
| t_s7_int
| t_double
| t_const_char_ptr
| t_string_view
| t_std_string
| t_unsigned_char
| t_char
| t_int
| t_short
| t_long
| t_float
| t_List
| t_VarArgs (T : ctype)
| t_usertype (name : string).

(** The key of a type in the per-type static tables ([TypeTag<T>]). *)
Fixpoint ctype_name (T : ctype) : string :=
  match T with
  | t_s7_pointer => "s7_pointer"
  | t_void => "void"
  | t_bool => "bool"
  | t_s7_int => "s7_int"
  | t_double => "double"
  | t_const_char_ptr => "const char *"
  | t_string_view => "std::string_view"
  | t_std_string => "std::string"
  | t_unsigned_char => "unsigned char"
  | t_char => "char"
  | t_int => "int"
  | t_short => "short"
  | t_long => "long"
  | t_float => "float"
  | t_List => "s7::List"
  | t_VarArgs T => "s7::VarArgs<" ++ ctype_name T ++ ">"
  | t_usertype name => name
  end.

(** [struct VarArgs<T>]: the cursor handed to a variadic native callable. *)
Record VarArgs := mkVarArgs {
  va_T : ctype;
  va_p : s7_value;
  va_caller : string;
  va_arg_n : Z
}.

Inductive cvalue :=
| c_void
| c_s7_pointer (p : s7_pointer)
| c_bool (b : bool)
| c_s7_int (i : Z)
| c_int (i : Z)
| c_short (i : Z)
| c_long (i : Z)
| c_double (d : double)
| c_float (f : float)
| c_const_char_ptr (s : string)
| c_string_view (s : string)
| c_std_string (s : string)
| c_unsigned_char (c : Z)
| c_char (c : Z)
| c_List (p : s7_value)
| c_VarArgs (va : VarArgs)
| c_native (T : string) (o : Z).

(** The static type of a native value. *)
Definition ctype_of (x : cvalue) : ctype :=
  match x with
  | c_void => t_void
  | c_s7_pointer _ => t_s7_pointer
  | c_bool _ => t_bool
  | c_s7_int _ => t_s7_int
  | c_int _ => t_int
  | c_short _ => t_short
  | c_long _ => t_long
  | c_double _ => t_double
  | c_float _ => t_float
  | c_const_char_ptr _ => t_const_char_ptr
  | c_string_view _ => t_string_view
  | c_std_string _ => t_std_string
  | c_unsigned_char _ => t_unsigned_char
  | c_char _ => t_char
  | c_List _ => t_List
  | c_VarArgs va => t_VarArgs (va_T va)
  | c_native T _ => t_usertype T
  end.

(** [scheme_type<T, Output>()]. *)
Definition scheme_type (T : ctype) (Output : bool) : Ty.t :=
  match T with
  | t_s7_pointer => Ty.Any
  | t_void => Ty.Unspecified
  | t_bool => Ty.Boolean
  | t_s7_int => Ty.Integer
  | t_double => Ty.Real
  | t_const_char_ptr | t_string_view => Ty.String
  | t_unsigned_char => Ty.Character
  | t_List => Ty.List
  | t_int | t_short | t_long => Ty.Integer
  | t_float => Ty.Real
  | t_std_string => if Output then Ty.String else Ty.CObject
  | _ => Ty.CObject
  end.

(** ** The type registry of one interpreter instance

    [tag] and [let_] are the entries of [TypeTag<T>::tag] and
    [TypeTag<T>::let] for this instance, keyed by [T]; [c_types] is the
    runtime's table of type names, indexed by tag. *)

Record s7_scheme := mk_s7_scheme {
  tag : gmap string Z;
  let_ : gmap string s7_value;
  c_types : list string
}.

Definition get_type_tag (sc : s7_scheme) (T : ctype) : option Z :=
  tag sc !! ctype_name T.

Definition get_type_let (sc : s7_scheme) (T : ctype) : option s7_value :=
  let_ sc !! ctype_name T.

Definition get_type_name (sc : s7_scheme) (T : ctype) : option string :=
  t ← get_type_tag sc T;
  if Z.ltb t 0 then None else c_types sc !! Z.to_nat t.

Definition type_to_string (sc : s7_scheme) (T : ctype) (OutputType : bool)
  : option string :=
  let t := scheme_type T OutputType in
  if Ty.eqb t Ty.CObject then get_type_name sc T
  else Some (scheme_type_to_string t).

(** ** The value converter *)

(** [detail::is<T>(sc, p)] ([is] is reserved, hence [is_]) for a handle
    [p] that is not null.  On the last line the tag is only looked up when
    [p] is a c-object; a missing registration there is a programming error,
    and no tag equals it. *)
Definition is_ (sc : s7_scheme) (T : ctype) (p : s7_value) : bool :=
  match T with
  | t_s7_pointer => true
  | t_bool => s7_is_boolean p
  | t_s7_int => s7_is_integer p
  | t_double => s7_is_real p
  | t_const_char_ptr | t_string_view => s7_is_string p
  | t_unsigned_char => s7_is_character p
  | t_List => s7_is_pair p
  | t_int | t_short | t_long => s7_is_integer p
  | t_float => s7_is_real p
  | _ => s7_is_c_object p
         && bool_decide (get_type_tag sc T = Some (s7_c_object_type p))
  end.

(** [is] on a handle that may be null: [is<s7_pointer>] is the test
    [p != nullptr], and no other predicate holds of a null handle. *)
Definition is_ptr (sc : s7_scheme) (T : ctype) (p : s7_pointer) : bool :=
  match p with
  | Some v => is_ sc T v
  | None => false
  end.

(** [detail::to<T>(sc, p)].  With [S7_DEBUGGING] the function first asserts
    [is<T>(sc, p)]; a failed assertion, like an accessor applied to a cell of
    the wrong kind, leaves no result.  There is a branch for [char] and none
    for [unsigned char], which therefore takes the last one, with every type
    that has no branch: the storage of the c-object is read as a [T].  The
    state of a boxed object is kept as the number its bytes spell, the first
    byte lowest; reading it as a type it is not, other than as a byte, leaves
    no result. *)
Definition to (S7_DEBUGGING : bool) (sc : s7_scheme) (T : ctype)
    (p : s7_value) : option cvalue :=
  if S7_DEBUGGING && negb (is_ sc T p) then None
  else
    match T with
    | t_s7_pointer => Some (c_s7_pointer (Some p))
    | t_bool => Some (c_bool (s7_boolean p))
    | t_s7_int => c_s7_int <$> s7_integer p
    | t_double => c_double <$> s7_real p
    | t_const_char_ptr => c_const_char_ptr <$> s7_string p
    | t_string_view => (λ s, c_string_view (c_str s)) <$> s7_string p
    | t_char => (λ c, c_char (wrap 8 c)) <$> s7_character p
    | t_List => Some (c_List p)
    | t_int => (λ i, c_int (wrap 32 i)) <$> s7_integer p
    | t_short => (λ i, c_short (wrap 16 i)) <$> s7_integer p
    | t_long => (λ i, c_long (wrap 64 i)) <$> s7_integer p
    | t_float => (λ d, c_float (double_to_float d)) <$> s7_real p
    | t_unsigned_char =>
        (λ o, c_unsigned_char (o mod 256)) <$> s7_c_object_value p
    | t_usertype T' => c_native T' <$> s7_c_object_value p
    | t_void | t_std_string | t_VarArgs _ => None
    end.

(** [detail::make_c_object(sc, tag, p)] with the container of [T]. *)
Definition make_c_object (sc : s7_scheme) (T : ctype) (tag : Z) (o : Z)
  : option s7_value :=
  l ← get_type_let sc T; Some (c_object tag o l).

(** [detail::from(sc, x)]: the overload is chosen by the static type of
    [x].  The outer [option] is [None] where the function reads a
    registration that is missing; the inner one is the handle returned. *)
Definition from (sc : s7_scheme) (x : cvalue) : option s7_pointer :=
  match x with
  | c_s7_pointer p => Some p
  | c_bool b => Some (Some (s7_make_boolean b))
  | c_s7_int i | c_int i | c_short i | c_long i =>
      Some (Some (s7_make_integer i))
  | c_double d => Some (Some (s7_make_real d))
  | c_float f => Some (Some (s7_make_real (float_to_double f)))
  | c_const_char_ptr s => Some (Some (s7_make_string s))
  | c_std_string s | c_string_view s =>
      Some (Some (s7_make_string_with_length s))
  | c_unsigned_char c => Some (Some (s7_make_character c))
  | c_List p => Some (Some p)
  | c_void | c_char _ | c_VarArgs _ | c_native _ _ =>
      let T := ctype_of x in
      let o := match x with c_char c => c | c_native _ o => o | _ => 0 end in
      t ← get_type_tag sc T;
      Some <$> make_c_object sc T t o
  end.

(** ** Effects of the bridge

    A call into the bridge may return, may raise an interpreter-level error
    (the runtime's raising primitives do not return), or may have no defined
    behaviour.  What the native side observes of it is the sequence of
    events: the native callables invoked through the lambda table, the
    method lookups and the calls back into the interpreter. *)

Inductive s7_error_t :=
| s7_wrong_type_arg_error (caller : string) (arg_n : Z) (arg : s7_value)
    (descr : string)
| s7_error (type : s7_value) (info : s7_value).

Inductive outcome (A : Type) :=
| Returns (a : A)
| Raises (e : s7_error_t)
| NoBehaviour.
Arguments Returns {A} a.
Arguments Raises {A} e.
Arguments NoBehaviour {A}.

Inductive event :=
| Invoke (L : nat) (args : list cvalue)
| FindMethod (l : s7_value) (name : string)
| Call (f : s7_value) (args : list s7_value).

Definition M (A : Type) : Type := list event * outcome A.

Definition trace {A} (m : M A) : list event := fst m.
Definition result {A} (m : M A) : outcome A := snd m.

Definition ret {A} (a : A) : M A := ([], Returns a).

Definition bind {A B} (m : M A) (k : A -> M B) : M B :=
  match m with
  | (t, Returns a) => let (t', r) := k a in ((t ++ t')%list, r)
  | (t, Raises e) => (t, Raises e)
  | (t, NoBehaviour) => (t, NoBehaviour)
  end.

Definition raise {A} (e : s7_error_t) : M A := ([], Raises e).
Definition log (e : event) : M unit := ([e], Returns tt).

(** A partial pure computation inside [M]. *)
Definition defined {A} (o : option A) : M A :=
  match o with
  | Some a => ret a
  | None => ([], NoBehaviour)
  end.

(** The outcome of a native body, inside [M]. *)
Definition lift {A} (o : outcome A) : M A := ([], o).

Declare Scope bridge_scope.
Delimit Scope bridge_scope with bridge.
Notation "'do' x <- m ; k" := (bind m (fun x => k))
  (at level 10, x name, m at level 100, k at level 200,
   format "'[v' 'do'  x  <-  m ; '/' k ']'") : bridge_scope.
Notation "'do_' m ; k" := (bind m (fun _ => k))
  (at level 10, m at level 100, k at level 200,
   format "'[v' 'do_'  m ; '/' k ']'") : bridge_scope.
Local Open Scope bridge_scope.

(** The elements of a braced initialiser list are evaluated from left to
    right. *)
Fixpoint for_each {A B} (f : A -> M B) (l : list A) : M (list B) :=
  match l with
  | [] => ret []
  | a :: l' => do b <- f a; do bs <- for_each f l'; ret (b :: bs)
  end.

(** ** Native callables

    An entry of the lambda table: [L] identifies the closure type, [name]
    is the display name stored for this instance, [Args] and [R] are the
    signature [FunctionTraits] reports ([function_traits.hpp] is not part
    of the sources: the arity is the number of declared parameters, the
    variadic marker included), and [lambda] is the body, which may itself
    raise. *)

Record native := mk_native {
  L : nat;
  name : string;
  Args : list ctype;
  R : ctype;
  lambda : list cvalue -> outcome cvalue
}.

Definition arity (F : native) : nat := length (Args F).

Definition is_varargs (T : ctype) : bool :=
  match T with t_VarArgs _ => true | _ => false end.

(** [function_has_varargs<F>()]: the last declared parameter is the
    variadic marker. *)
Definition function_has_varargs (F : native) : bool :=
  match last (Args F) with
  | Some T => is_varargs T
  | None => false
  end.

(** ** [class List] *)

Definition List_advance (p : s7_value) : option (s7_value * s7_value) :=
  a ← s7_car p; d ← s7_cdr p; Some (a, d).

Fixpoint List_at (p : s7_value) (i : nat) : option s7_value :=
  match i with
  | O => s7_car p
  | S i' => d ← s7_cdr p; List_at d i'
  end.

(** The elements visited by a range-for over a [List]: the iteration stops
    at the first cell that is not a pair. *)
Fixpoint List_elements (p : s7_value) : list s7_value :=
  match p with
  | s7_cons a d => a :: List_elements d
  | _ => []
  end.

(** [for (i = 0; i < NumArgs; i++) arr[i] = arglist.advance();] *)
Fixpoint fill_array (NumArgs : nat) (arglist : s7_value)
  : option (list s7_value) :=
  match NumArgs with
  | O => Some []
  | S n =>
      '(a, rest) ← List_advance arglist;
      arr ← fill_array n rest;
      Some (a :: arr)
  end.

(** [std::find(bools.begin(), bools.end(), false) - bools.begin()], when the
    iterator found is not [bools.end()]. *)
Fixpoint find_false (bools : list bool) : option nat :=
  match bools with
  | [] => None
  | false :: _ => Some O
  | true :: rest => S <$> find_false rest
  end.

(** ** The call adapter *)

(** [fn(detail::to<Args>(sc, arr[Is])...)] followed by the conversion of
    the result: the tail shared by [call_fn] and [_match_fn]. *)
Definition invoke (S7_DEBUGGING : bool) (sc : s7_scheme) (F : native)
    (arr : list s7_value) : M s7_pointer :=
  do xs <- defined (mapM (M := option)
             (fun '(T, p) => to S7_DEBUGGING sc T p) (zip (Args F) arr));
  do_ log (Invoke (L F) xs);
  do r <- lift (lambda F xs);
  match R F with
  | t_void => ret (Some s7_unspecified)
  | _ => defined (from sc r)
  end.

(** [detail::call_fn<F, R, Args...>(sc, args)]. *)
Definition call_fn (S7_DEBUGGING : bool) (sc : s7_scheme) (F : native)
    (args : s7_value) : M s7_pointer :=
  do arr <- defined (fill_array (arity F) args);
  let first_wrong_type :=
    if S7_DEBUGGING then find_false (zip_with (is_ sc) (Args F) arr)
    else None in
  match first_wrong_type with
  | Some i =>
      do types <- defined (mapM (M := option)
                    (fun T => type_to_string sc T false) (Args F));
      do arg <- defined (List_at args i);
      do type <- defined (types !! i);
      raise (s7_wrong_type_arg_error (name F) (Z.of_nat i + 1) arg type)
  | None => invoke S7_DEBUGGING sc F arr
  end.

(** [detail::call_fn_varargs<F, R, T>(sc, args)]. *)
Definition call_fn_varargs (sc : s7_scheme) (F : native) (T : ctype)
    (args : s7_value) : M s7_pointer :=
  do_ log (Invoke (L F) [c_VarArgs (mkVarArgs T args (name F) 1)]);
  do r <- lift (lambda F [c_VarArgs (mkVarArgs T args (name F) 1)]);
  match R F with
  | t_void => ret (Some s7_unspecified)
  | _ => defined (from sc r)
  end.

(** [LastArg::Type] of a variadic callable. *)
Definition varargs_type (F : native) : ctype :=
  match last (Args F) with
  | Some (t_VarArgs T) => T
  | _ => t_s7_pointer
  end.

(** The function returned by [detail::make_s7_function]. *)
Definition make_s7_function (S7_DEBUGGING : bool) (sc : s7_scheme)
    (F : native) (args : s7_value) : M s7_pointer :=
  if function_has_varargs F then call_fn_varargs sc F (varargs_type F) args
  else call_fn S7_DEBUGGING sc F args.

(** ** The overload resolver *)

(** [detail::_match_fn<F, R, Args...>(sc, args, length)]: [nullptr] tells
    the caller that the candidate does not match. *)
Definition _match_fn (S7_DEBUGGING : bool) (sc : s7_scheme) (F : native)
    (args : s7_value) (length : Z) : M s7_pointer :=
  if negb (Z.eqb length (Z.of_nat (arity F))) then ret nullptr
  else
    do arr <- defined (fill_array (arity F) args);
    let bools := zip_with (is_ sc) (Args F) arr in
    let matches := negb (bool_decide (is_Some (find_false bools))) in
    if negb matches then ret nullptr
    else invoke S7_DEBUGGING sc F arr.

(** [detail::match_fn<F>(sc, args, length)]. *)
Definition match_fn (S7_DEBUGGING : bool) (sc : s7_scheme) (F : native)
    (args : s7_value) (length : Z) : M s7_pointer :=
  if function_has_varargs F then call_fn_varargs sc F (varargs_type F) args
  else _match_fn S7_DEBUGGING sc F args length.

(** [Scheme::type_of].  The predicates of the kinds that have no
    constructor of their own hold of the [opaque] cells of that kind. *)
Definition type_of (p : s7_value) : Ty.t :=
  if s7_is_null p then Ty.Nil
  else if s7_is_unspecified p then Ty.Unspecified
  else if s7_is_let p then Ty.Let
  else if is_opaque Ty.OpenLet p then Ty.OpenLet
  else if s7_is_boolean p then Ty.Boolean
  else if s7_is_integer p then Ty.Integer
  else if s7_is_real p then Ty.Real
  else if s7_is_string p then Ty.String
  else if s7_is_character p then Ty.Character
  else if is_opaque Ty.Ratio p then Ty.Ratio
  else if is_opaque Ty.Complex p then Ty.Complex
  else if is_opaque Ty.Vector p then Ty.Vector
  else if is_opaque Ty.IntVector p then Ty.IntVector
  else if is_opaque Ty.FloatVector p then Ty.FloatVector
  else if is_opaque Ty.ByteVector p then Ty.ByteVector
  else if is_opaque Ty.ComplexVector p then Ty.ComplexVector
  else if s7_is_pair p then Ty.List
  else if is_opaque Ty.CPointer p then Ty.CPointer
  else if s7_is_c_object p then Ty.CObject
  else if is_opaque Ty.RandomState p then Ty.RandomState
  else if is_opaque Ty.HashTable p then Ty.HashTable
  else if is_opaque Ty.InputPort p then Ty.InputPort
  else if is_opaque Ty.OutputPort p then Ty.OutputPort
  else if is_opaque Ty.Syntax p then Ty.Syntax
  else if s7_is_symbol p then Ty.Symbol
  else if is_opaque Ty.Keyword p then Ty.Keyword
  else if s7_is_procedure p then Ty.Procedure
  else if is_opaque Ty.Macro p then Ty.Macro
  else if is_opaque Ty.Dilambda p then Ty.Dilambda
  else if is_opaque Ty.Values p then Ty.Values
  else if is_opaque Ty.Iterator p then Ty.Iterator
  else if is_opaque Ty.BigNum p then Ty.BigNum
  else Ty.Unknown.

(** [Scheme::type_is_fn<T, OutputType>()]. *)
Fixpoint type_is_fn (sc : s7_scheme) (T : ctype) (OutputType : bool)
  : option s7_value :=
  match T with
  | t_s7_pointer => Some s7_t
  | t_VarArgs T' => type_is_fn sc T' OutputType
  | _ => s ← type_to_string sc T OutputType; Some (s7_make_symbol (s ++ "?"))
  end.

(** The signature object handed to the runtime.  A plain signature is the
    list of its entries; a circular one is kept as its entries and the
    index the last entry points back to. *)
Inductive signature :=
| s7_make_signature (entries : list s7_value)
| s7_make_circular_signature (cycle_point : nat) (entries : list s7_value).

(** [Scheme::make_signature]. *)
Definition make_signature (sc : s7_scheme) (F : native) : option signature :=
  r ← type_is_fn sc (R F) true;
  a ← mapM (M := option) (fun T => type_is_fn sc T false) (Args F);
  Some (if function_has_varargs F
        then s7_make_circular_signature (arity F) (r :: a)
        else s7_make_signature (r :: a)).

(** A signature as a dynamic value, for the payload of an error. *)
Definition signature_value (s : signature) : s7_value :=
  match s with
  | s7_make_signature entries => s7_list entries
  | s7_make_circular_signature cycle_point entries =>
      s7_cons (s7_make_symbol "circular")
        (s7_cons (s7_make_integer (Z.of_nat cycle_point)) (s7_list entries))
  end.

Fixpoint repeat_string (n : nat) (s : string) : string :=
  match n with
  | O => ""
  | S n' => s ++ repeat_string n' s
  end.

(** The format string of the diagnostic: one [~a] for the argument types
    and one per candidate. *)
Definition no_match_message (NumFns : nat) : string :=
  "arglist ~a doesn't match any signature for this function" ++
  String (Ascii.ascii_of_nat 10) ";valid signatures:" ++
  repeat_string NumFns (String (Ascii.ascii_of_nat 10) ";~a").

(** The payload of the [no-overload-match] error. *)
Definition no_match_info (sc : s7_scheme) (Fns : list native)
    (args : s7_value) : option s7_value :=
  let types :=
    map (fun arg => s7_make_symbol (scheme_type_to_string (type_of arg)))
        (List_elements args) in
  sigs ← mapM (M := option) (make_signature sc) Fns;
  Some (s7_list (s7_make_string_with_length (no_match_message (length Fns))
                 :: s7_list types
                 :: map signature_value sigs)).

(** [std::find_if(results.begin(), results.end(), p != nullptr)]. *)
Fixpoint find_non_null (results : list s7_pointer) : s7_pointer :=
  match results with
  | [] => None
  | Some p :: _ => Some p
  | None :: rest => find_non_null rest
  end.

(** The dispatch function returned by [Scheme::_make_overload]. *)
Definition _make_overload (S7_DEBUGGING : bool) (sc : s7_scheme)
    (Fns : list native) (args : s7_value) : M s7_pointer :=
  let length := s7_list_length args in
  do results <- for_each (fun F => match_fn S7_DEBUGGING sc F args length) Fns;
  match find_non_null results with
  | Some p => ret (Some p)
  | None =>
      do info <- defined (no_match_info sc Fns args);
      raise (s7_error (s7_make_symbol "no-overload-match") info)
  end.

(** ** Arities of an overload set *)

(** [detail::vmin] and [detail::vmax], on a non-empty pack. *)
Fixpoint vmin (a : nat) (args : list nat) : nat :=
  match args with
  | [] => a
  | b :: rest => Nat.min a (vmin b rest)
  end.

Definition vmax (a : nat) (args : list nat) : nat :=
  match args with
  | [] => a
  | b :: rest => Nat.max a (vmin b rest)
  end.

Definition min_arity (F : native) (Fns : list native) : nat :=
  vmin (arity F) (map arity Fns).
Definition max_arity (F : native) (Fns : list native) : nat :=
  vmax (arity F) (map arity Fns).

(** What [define_function] declares to the runtime's registration
    primitive: required arguments, optional arguments, rest arguments. *)
Record declared_arity := mk_declared {
  required_args : nat;
  optional_args : nat;
  rest_args : bool
}.

(** [Scheme::define_function(name, doc, Overload<Fns...>, opts)], for the
    pack [F, Fns...]. *)
Definition define_function_overload (F : native) (Fns : list native)
  : declared_arity :=
  let has_varargs := existsb function_has_varargs (F :: Fns) in
  let MinArgs := min_arity F Fns in
  if has_varargs then mk_declared MinArgs 0 true
  else
    let MaxArgs := max_arity F Fns in
    mk_declared MinArgs (MaxArgs - MinArgs) false.

(** Modelled from the spec: the runtime's own arity check on a function
    registered with a declared minimum and maximum arity and a variadic
    flag, made before the dispatch function runs. *)
Definition accepts (d : declared_arity) (n : nat) : bool :=
  (required_args d <=? n)%nat
  && (rest_args d || (n <=? required_args d + optional_args d)%nat).

(** ** The variadic cursor ([struct VarArgs<T>]) *)

Definition VarArgs_size (va : VarArgs) : Z := s7_list_length (va_p va).

Definition VarArgs_at_end (va : VarArgs) : bool := negb (s7_is_pair (va_p va)).

Definition VarArgs_cdr (va : VarArgs) : option VarArgs :=
  d ← s7_cdr (va_p va);
  Some (mkVarArgs (va_T va) d (va_caller va) (va_arg_n va + 1)).

(** The check and conversion applied to one element [r] of the cursor. *)
Definition VarArgs_convert (S7_DEBUGGING : bool) (sc : s7_scheme)
    (va : VarArgs) (r : s7_value) : M cvalue :=
  match va_T va with
  | t_s7_pointer => ret (c_s7_pointer (Some r))
  | T =>
      if S7_DEBUGGING && negb (is_ sc T r) then
        do type <- defined (type_to_string sc T false);
        raise (s7_wrong_type_arg_error (va_caller va) (va_arg_n va) r type)
      else defined (to S7_DEBUGGING sc T r)
  end.

Definition VarArgs_car (S7_DEBUGGING : bool) (sc : s7_scheme) (va : VarArgs)
  : M cvalue :=
  do r <- defined (s7_car (va_p va));
  VarArgs_convert S7_DEBUGGING sc va r.

Definition VarArgs_index (S7_DEBUGGING : bool) (sc : s7_scheme)
    (va : VarArgs) (i : nat) : M cvalue :=
  do r <- defined (s7_list_ref (va_p va) i);
  VarArgs_convert S7_DEBUGGING sc va r.

(** [advance] moves the cursor by one list step and keeps [arg_n]. *)
Definition VarArgs_advance (S7_DEBUGGING : bool) (sc : s7_scheme)
    (va : VarArgs) : M (cvalue * VarArgs) :=
  do tmp <- VarArgs_car S7_DEBUGGING sc va;
  do d <- defined (s7_cdr (va_p va));
  ret (tmp, mkVarArgs (va_T va) d (va_caller va) (va_arg_n va)).

(** ** The interpreter instance and the [Scheme] object

    The part of the interpreter's heap the lifecycle manager writes to: the
    metadata containers, by address, the bindings of the root environment,
    and the procedures the bridge created.  [registered] records, in order,
    the names passed to the runtime's function-registration primitive. *)

Inductive MethodOp := Add | Sub | Mul | Div.

#[global] Instance MethodOp_eq_dec : EqDecision MethodOp.
Proof. solve_decision. Defined.

Definition MethodOp_to_nat (op : MethodOp) : nat :=
  match op with Add => 0 | Sub => 1 | Mul => 2 | Div => 3 end.
Definition MethodOp_of_nat (n : nat) : option MethodOp :=
  match n with
  | 0%nat => Some Add | 1%nat => Some Sub | 2%nat => Some Mul
  | 3%nat => Some Div | _ => None
  end.

#[global] Instance MethodOp_countable : Countable MethodOp.
Proof.
  apply (inj_countable MethodOp_to_nat MethodOp_of_nat).
  intros []; reflexivity.
Defined.

(** [method_op_fn<op>()]. *)
Definition method_op_fn (op : MethodOp) : string :=
  match op with Add => "+" | Sub => "-" | Mul => "*" | Div => "/" end.

(** What a procedure created by the bridge runs. *)
Inductive function_body :=
| native_function (F : native)
| method_op_function (op : MethodOp) (old : s7_value).

Record Scheme := mk_Scheme {
  lets : gmap nat (gmap string s7_value);
  rootlet : gmap string s7_value;
  functions : list function_body;
  registered : list string;
  substitured_ops : gset MethodOp
}.

(** Modelled from the spec: [s7_name_to_value]; an unbound name evaluates
    to the undefined value. *)
Definition s7_name_to_value (st : Scheme) (name : string) : s7_value :=
  default s7_undefined (rootlet st !! name).

(** Modelled from the spec: [s7_method(sc, obj, sym)], the method-name
    lookup in a metadata container: the binding of [sym] in the container, the
    undefined value when there is none. *)
Definition s7_method (st : Scheme) (obj : s7_value) (sym : string) : s7_value :=
  match obj with
  | s7_let id => default s7_undefined (lets st !! id ≫= (.!! sym))
  | _ => s7_undefined
  end.

(** Modelled from the spec: [s7_define(sc, let, sym, value)] on a
    container of the store. *)
Definition s7_define (st : Scheme) (env : s7_value) (sym : string)
    (value : s7_value) : option Scheme :=
  match env with
  | s7_let id =>
      Some (mk_Scheme (<[id := <[sym := value]> (default ∅ (lets st !! id))]> (lets st))
              (rootlet st) (functions st) (registered st)
              (substitured_ops st))
  | _ => None
  end.

(** [Scheme::make_function(name, doc, func)]: a new procedure running
    [body]; procedures are numbered in creation order. *)
Definition make_function (st : Scheme) (body : function_body)
  : Scheme * s7_value :=
  (mk_Scheme (lets st) (rootlet st) (functions st ++ [body]) (registered st)
     (substitured_ops st),
   procedure (length (functions st))).

(** [Scheme::define_function(name, doc, func)]: a new procedure, bound to
    [name] in the root environment through the registration primitive. *)
Definition define_function (st : Scheme) (name : string)
    (body : function_body) : Scheme :=
  let '(st', f) := make_function st body in
  mk_Scheme (lets st') (<[name := f]> (rootlet st')) (functions st')
    (registered st' ++ [name]) (substitured_ops st').

(** [Scheme::usertype_add_method_op<T>(name, let, op, fn)]. *)
Definition usertype_add_method_op (st : Scheme) (let_ : s7_value)
    (op : MethodOp) (fn : native) : option Scheme :=
  let opname := method_op_fn op in
  let '(st1, add_method) := make_function st (native_function fn) in
  st2 ← s7_define st1 let_ opname add_method;
  if bool_decide (op ∉ substitured_ops st2) then
    let old := s7_name_to_value st2 opname in
    let st3 := define_function st2 opname (method_op_function op old) in
    Some (mk_Scheme (lets st3) (rootlet st3) (functions st3) (registered st3)
            ({[op]} ∪ substitured_ops st3))
  else Some st2.

(** [Scheme()]: a fresh instance, over the root environment of a fresh
    interpreter. *)
Definition Scheme_new (builtins : gmap string s7_value) : Scheme :=
  mk_Scheme ∅ builtins [] [] ∅.

(** A sequence of method registrations on one instance. *)
Fixpoint add_method_ops (st : Scheme)
    (regs : list (s7_value * MethodOp * native)) : option Scheme :=
  match regs with
  | [] => Some st
  | (let_, op, fn) :: rest =>
      st' ← usertype_add_method_op st let_ op fn;
      add_method_ops st' rest
  end.

(** The number of times [name] went through the registration primitive. *)
Definition times_registered (st : Scheme) (name : string) : nat :=
  length (filter (λ n, n = name) (registered st)).

(** ** The substituted operator *)

(** [Scheme::call(func, args...)]: [s7_call] is the interpreter's own
    application of a procedure to an argument list. *)
Definition call (s7_call : s7_value -> list s7_value -> outcome s7_value)
    (func : s7_value) (args : list s7_value) : M s7_value :=
  do_ log (Call func args);
  lift (s7_call func args).

(** [Scheme::find_method(p, name)]. *)
Definition find_method (st : Scheme) (p : s7_value) (name : string)
  : M (option s7_value) :=
  do_ log (FindMethod p name);
  let m := s7_method st p name in
  ret (if s7_is_procedure m then Some m else None).

(** One turn of the loop of the wrapper. *)
Definition method_op_step (st : Scheme)
    (s7_call : s7_value -> list s7_value -> outcome s7_value)
    (op : MethodOp) (old : s7_value) (res arg : s7_value) : M s7_value :=
  let Name := method_op_fn op in
  if s7_is_c_object res || s7_is_c_object arg then
    let p := if s7_is_c_object res then res else arg in
    do l <- defined (s7_c_object_let p);
    do method <- find_method st l Name;
    match method with
    | None =>
        raise (s7_wrong_type_arg_error Name 0 res "a c-object that defines +")
    | Some m => call s7_call m [res; arg]
    end
  else call s7_call old [res; arg].

Fixpoint method_op_loop (st : Scheme)
    (s7_call : s7_value -> list s7_value -> outcome s7_value)
    (op : MethodOp) (old : s7_value) (res : s7_value)
    (rest : list s7_value) : M s7_value :=
  match rest with
  | [] => ret res
  | arg :: rest' =>
      do res' <- method_op_step st s7_call op old res arg;
      method_op_loop st s7_call op old res' rest'
  end.

(** The closure returned by [Scheme::make_method_op_function<op>()], with
    [old] the value captured at creation.  Both tests of the size compare
    it with [0], as written. *)
Definition make_method_op_function (st : Scheme)
    (s7_call : s7_value -> list s7_value -> outcome s7_value)
    (op : MethodOp) (old : s7_value) (args : VarArgs) : M s7_value :=
  let Name := method_op_fn op in
  if Z.eqb (VarArgs_size args) 0 then call s7_call old [s7_nil]
  else if Z.eqb (VarArgs_size args) 0 then
    do p <- defined (s7_car (va_p args));
    if s7_is_c_object p then
      do l <- defined (s7_c_object_let p);
      do method <- find_method st l Name;
      match method with
      | None =>
          raise (s7_wrong_type_arg_error Name 0 p
                   ("a c-object that defines " ++ Name))
      | Some m => call s7_call m [p]
      end
    else call s7_call old [p]
  else
    do res <- defined (s7_car (va_p args));
    do rest <- defined (s7_cdr (va_p args));
    method_op_loop st s7_call op old res (List_elements rest).

(** ** The equality hook of a registered type

    The hook compares handles, so its operands come with the address of
    their cell: two handles are the identical dynamic value when the
    addresses agree. *)

Record s7_handle := mk_handle {
  address : Z;
  cell : s7_value
}.

(** [[](s7_scheme *sc, s7_pointer args) { ... }] passed to
    [s7_c_type_set_is_equal]; [T_eq] is [operator==] of [T], on the state
    of the two boxed objects. *)
Definition is_equal_hook (sc : s7_scheme) (T : ctype)
    (T_eq : Z -> Z -> bool) (args : list s7_handle) : option s7_value :=
  a ← args !! 0%nat;
  b ← args !! 1%nat;
  if Z.eqb (address a) (address b) then Some s7_t
  else
    tag ← get_type_tag sc T;
    if negb (s7_is_c_object (cell b))
       || negb (Z.eqb (s7_c_object_type (cell b)) tag)
    then Some s7_f
    else
      pa ← s7_c_object_value (cell a);
      pb ← s7_c_object_value (cell b);
      Some (s7_make_boolean (T_eq pa pb)).

(** The hooks [make_usertype<T>] hands to the runtime depend on what [T]
    can do; [operator_eq] is [Some] when [requires(T a, T b) { a == b; }]
    holds. *)
Record usertype_hooks := mk_hooks {
  is_equal : option (list s7_handle -> option s7_value)
}.

Definition make_usertype_hooks (sc : s7_scheme) (T : ctype)
    (operator_eq : option (Z -> Z -> bool)) : usertype_hooks :=
  mk_hooks (is_equal_hook sc T <$> operator_eq).

(** ** Registration of a native type *)

(** Modelled from the spec: [s7_make_c_type], which creates a new type
    tag; the tag is the index of the new entry in the runtime's table of
    type names, the table [get_type_name] reads. *)
Definition s7_make_c_type (sc : s7_scheme) (name : string) : s7_scheme * Z :=
  (mk_s7_scheme (tag sc) (let_ sc) (c_types sc ++ [name])%list,
   Z.of_nat (length (c_types sc))).

(** The first statements of [Scheme::make_usertype<T>(name, constructors,
    let)]: a tag is created, and the two tables of [T] are assigned for
    this instance ([insert_or_assign]), over whatever they held. *)
Definition make_usertype (sc : s7_scheme) (T : ctype) (name : string)
    (l : s7_value) : s7_scheme * Z :=
  let '(sc1, t) := s7_make_c_type sc name in
  (mk_s7_scheme (<[ctype_name T := t]> (tag sc1))
     (<[ctype_name T := l]> (let_ sc1)) (c_types sc1), t).

(** ** Checked conversion and the root environment *)

(** [Scheme::to_opt<T>(p)]: the outer [option] is [None] where the call
    has no defined result, the inner one is the [std::optional]. *)
Definition to_opt (S7_DEBUGGING : bool) (sc : s7_scheme) (T : ctype)
    (p : s7_value) : option (option cvalue) :=
  if negb (is_ sc T p) then Some None
  else Some <$> to S7_DEBUGGING sc T p.

(** Modelled from the spec: [s7_let_ref] on the root environment; an
    unbound symbol gives the undefined value. *)
Definition s7_let_ref (st : Scheme) (sym : string) : s7_value :=
  default s7_undefined (rootlet st !! sym).

(** [p == s7_undefined(sc)]. *)
Definition is_undefined (p : s7_value) : bool :=
  match p with s7_undefined => true | _ => false end.

(** Modelled from the spec: the primitives that bind a symbol in the root
    environment ([s7_define_variable_with_documentation],
    [s7_symbol_set_value], [s7_define] on the root). *)
Definition bind_root (st : Scheme) (sym : string) (value : s7_value)
  : Scheme :=
  mk_Scheme (lets st) (<[sym := value]> (rootlet st)) (functions st)
    (registered st) (substitured_ops st).

(** Modelled from the spec: [s7_let_set] on the root environment, which
    assigns a symbol that is bound there; for one that is not it leaves no
    state to go on from. *)
Definition s7_let_set (st : Scheme) (sym : string) (value : s7_value)
  : option Scheme :=
  match rootlet st !! sym with
  | Some _ => Some (bind_root st sym value)
  | None => None
  end.

(** A handle that is not null, for the primitives that store it. *)
Definition stored (p : option s7_pointer) : option s7_value :=
  p ≫= id.



(** [Scheme::get<T>(name)] and [Scheme::get_opt<T>(name)]. *)
Definition Scheme_get (S7_DEBUGGING : bool) (sc : s7_scheme) (st : Scheme)
    (T : ctype) (name : string) : option cvalue :=
  to S7_DEBUGGING sc T (s7_name_to_value st name).

Definition Scheme_get_opt (S7_DEBUGGING : bool) (sc : s7_scheme)
    (st : Scheme) (T : ctype) (name : string) : option (option cvalue) :=
  to_opt S7_DEBUGGING sc T (s7_name_to_value st name).

(** [class Variable] ([Variable] is reserved), as [Scheme::operator[]]
    makes it: the symbol, in the root environment. *)
Record Variable_t := mkVariable { var_sym : string }.

(** [Scheme::operator[](name)]. *)
Definition Scheme_index (st : Scheme) (name : string)
  : Scheme * Variable_t :=
  if is_undefined (s7_let_ref st name)
  then (bind_root st name s7_nil, mkVariable name)
  else (st, mkVariable name).

(** [Variable::operator=(v)]. *)
Definition Variable_assign (sc : s7_scheme) (st : Scheme) (var : Variable_t)
    (v : cvalue) : option Scheme :=
  object ← stored (from sc v);
  s7_let_set st (var_sym var) object.

(** [Variable::to<T>()] and [Variable::to_opt<T>()]. *)
Definition Variable_to (S7_DEBUGGING : bool) (sc : s7_scheme) (st : Scheme)
    (var : Variable_t) (T : ctype) : option cvalue :=
  to S7_DEBUGGING sc T (s7_let_ref st (var_sym var)).

Definition Variable_to_opt (S7_DEBUGGING : bool) (sc : s7_scheme)
    (st : Scheme) (var : Variable_t) (T : ctype) : option (option cvalue) :=
  to_opt S7_DEBUGGING sc T (s7_let_ref st (var_sym var)).

(** ** Walking a variadic cursor *)

(** What a range-for over a [VarArgs<T>] yields: [operator*] is [car],
    [operator++] is [cdr], which counts the position up, and the walk ends
    at the first cell that is not a pair. *)
Fixpoint VarArgs_iterate (S7_DEBUGGING : bool) (sc : s7_scheme) (T : ctype)
    (caller : string) (p : s7_value) (arg_n : Z) : M (list cvalue) :=
  match p with
  | s7_cons _ d =>
      do x <- VarArgs_car S7_DEBUGGING sc (mkVarArgs T p caller arg_n);
      do xs <- VarArgs_iterate S7_DEBUGGING sc T caller d (arg_n + 1);
      ret (x :: xs)
  | _ => ret []
  end.

(** [List::size()]: the number of pairs walked. *)
Definition List_size (p : s7_value) : nat := length (List_elements p).

(** ** Registration of one callable *)

(** What [Scheme::define_function(name, doc, func, opts)] declares for a
    single callable. *)
Definition define_function_arity (F : native) : declared_arity :=
  if function_has_varargs F then mk_declared 0 0 true
  else mk_declared (arity F) 0 false.

(** What [Scheme::make_function(name, doc, func)] declares: the arity, for
    a variadic callable too. *)
Definition make_function_arity (F : native) : declared_arity :=
  mk_declared (arity F) 0 false.

(** ** The index hooks of a registered type

    [make_usertype] installs them for a [T] with [operator[]], of
    parameter type [IndexType] and result type [ValueType &]:
    [subscript o i] is the element [i] read on an object in state [o], and
    [assign o i v] the state after the element [i] is assigned [v]. *)

Record subscriptable := mk_subscriptable {
  IndexType : ctype;
  ValueType : ctype;
  subscript : Z -> cvalue -> outcome cvalue;
  assign : Z -> cvalue -> cvalue -> outcome Z
}.

(** Modelled from the spec: [s7_cadr] and [s7_caddr]. *)
Definition s7_cadr (p : s7_value) : option s7_value :=
  d ← s7_cdr p; s7_car d.
Definition s7_caddr (p : s7_value) : option s7_value :=
  d ← s7_cdr p; d' ← s7_cdr d; s7_car d'.

(** The function passed to [s7_c_type_set_ref]. *)
Definition ref_hook (S7_DEBUGGING : bool) (sc : s7_scheme)
    (T : subscriptable) (args : s7_value) : M s7_pointer :=
  do a <- defined (s7_car args);
  do obj <- defined (s7_c_object_value a);
  do arg <- defined (s7_cadr args);
  if S7_DEBUGGING && negb (is_ sc (IndexType T) arg) then
    do type <- defined (type_to_string sc (IndexType T) false);
    raise (s7_wrong_type_arg_error "T ref" 1 arg type)
  else
    do i <- defined (to S7_DEBUGGING sc (IndexType T) arg);
    do r <- lift (subscript T obj i);
    defined (from sc r).

(** The function passed to [s7_c_type_set_set]; beside the handle it
    returns, the state the object is left in.  The right operand of the
    assignment is evaluated before the left one. *)
Definition set_hook (S7_DEBUGGING : bool) (sc : s7_scheme)
    (T : subscriptable) (args : s7_value) : M (s7_value * Z) :=
  do a <- defined (s7_car args);
  do obj <- defined (s7_c_object_value a);
  do index <- defined (s7_cadr args);
  if S7_DEBUGGING && negb (is_ sc (IndexType T) index) then
    do type <- defined (type_to_string sc (IndexType T) false);
    raise (s7_wrong_type_arg_error "T ref" 1 index type)
  else
    do value <- defined (s7_caddr args);
    if S7_DEBUGGING && negb (is_ sc (ValueType T) value) then
      do type <- defined (type_to_string sc (ValueType T) false);
      raise (s7_wrong_type_arg_error "T ref" 2 value type)
    else
      do v <- defined (to S7_DEBUGGING sc (ValueType T) value);
      do i <- defined (to S7_DEBUGGING sc (IndexType T) index);
      do obj' <- lift (assign T obj i v);
      ret (s7_undefined, obj').

(** ** Vocabulary of the properties *)

(** The native types [is] tests by the kind of the cell: those with a
    branch of their own in [is]. *)
Definition tested_by_kind (T : ctype) : bool :=
  match T with
  | t_bool | t_s7_int | t_double | t_const_char_ptr | t_string_view
  | t_unsigned_char | t_int | t_short | t_long | t_float => true
  | _ => false
  end.

(** The result types for which [is] holds of what [from] makes: the types
    tested by kind and the classes registered with the instance. *)
Definition is_covers_result (sc : s7_scheme) (T : ctype) : bool :=
  tested_by_kind T
  || match T with
     | t_usertype _ =>
         bool_decide (is_Some (get_type_tag sc T))
         && bool_decide (is_Some (get_type_let sc T))
     | _ => false
     end.

(** A candidate matches a call: a fixed-arity one when the call has its
    arity and every position passes [is]; a variadic one always, since it
    is handed the whole list unseen. *)
Definition candidate_matches (sc : s7_scheme) (F : native)
    (vs : list s7_value) : bool :=
  function_has_varargs F
  || (bool_decide (length vs = arity F)
      && forallb (fun b : bool => b) (zip_with (is_ sc) (Args F) vs)).

(** The cursor a variadic candidate receives for the argument list
    [args]. *)
Definition cursor_of (F : native) (args : s7_value) : cvalue :=
  c_VarArgs (mkVarArgs (varargs_type F) args (name F) 1).

(** What an adapter hands back for the native result [r]: the unspecified
    value for a [void] callable, [from(r)] otherwise. *)
Definition converted_result (sc : s7_scheme) (F : native) (r : cvalue)
  : option s7_pointer :=
  match R F with
  | t_void => Some (Some s7_unspecified)
  | _ => from sc r
  end.

(** The symbol naming the kind of an actual argument, as the diagnostic of
    the overload resolver lists it. *)
Definition type_symbol (v : s7_value) : s7_value :=
  s7_make_symbol (scheme_type_to_string (type_of v)).

(** The invariant of an instance: an operator went through the
    registration primitive once if it is in [substitured_ops], and never
    otherwise. *)
Definition substitution_invariant (st : Scheme) : Prop :=
  forall op, times_registered st (method_op_fn op)
             = if bool_decide (op ∈ substitured_ops st) then 1%nat else 0%nat.

(** The true maximum and the true minimum of a non-empty pack. *)
Definition list_max1 (a : nat) (args : list nat) : nat :=
  foldr Nat.max a args.
Definition list_min1 (a : nat) (args : list nat) : nat :=
  foldr Nat.min a args.


(** A string holds a NUL byte. *)
Fixpoint has_nul (s : string) : bool :=
  match s with
  | EmptyString => false
  | String c rest => Ascii.eqb c Ascii.zero || has_nul rest
  end.

(** The types [is] tests by kind and [to] reads with the accessor of that
    kind, the reals apart. *)
Definition read_by_kind (T : ctype) : bool :=
  match T with
  | t_bool | t_s7_int | t_const_char_ptr | t_string_view
  | t_int | t_short | t_long => true
  | _ => false
  end.

(** Every tag of the registry is an index of the runtime's table of type
    names. *)
Definition registry_ok (sc : s7_scheme) : Prop :=
  forall n t, tag sc !! n = Some t ->
              0 <= t < Z.of_nat (length (c_types sc)).

(** ** Concrete instances, used to run the definitions *)

Module Examples.
(** An instance with no registered native type. *)
Definition sc0 : s7_scheme := mk_s7_scheme ∅ ∅ [].

(** [[](s7_int i) -> s7_int { return i + 1; }] *)
Definition succ_s7_int : native :=
  mk_native 0 "f" [t_s7_int] t_s7_int
    (fun xs => match xs with
               | [c_s7_int i] => Returns (c_s7_int (i + 1))
               | _ => NoBehaviour
               end).

(** [[](int i) -> int { return i + 2; }] *)
Definition plus2_int : native :=
  mk_native 1 "f" [t_int] t_int
    (fun xs => match xs with
               | [c_int i] => Returns (c_int (wrap 32 (i + 2)))
               | _ => NoBehaviour
               end).

(** [[](VarArgs<s7_pointer> args) -> s7_int { return 7; }] *)
Definition variadic7 : native :=
  mk_native 2 "f" [t_VarArgs t_s7_pointer] t_s7_int
    (fun _ => Returns (c_s7_int 7)).

(** [[]() -> s7_int { return 9; }] *)
Definition nullary9 : native :=
  mk_native 3 "f" [] t_s7_int (fun _ => Returns (c_s7_int 9)).

(** [[]() -> std::string { return "x"; }] *)
Definition hello : native :=
  mk_native 4 "hello" [] t_std_string (fun _ => Returns (c_std_string "x")).

(** [[](s7_int, s7_int, s7_int) -> s7_int { return 0; }] *)
Definition ternary0 : native :=
  mk_native 5 "f" [t_s7_int; t_s7_int; t_s7_int] t_s7_int
    (fun _ => Returns (c_s7_int 0)).

(** [[](s7_int, s7_int) -> s7_int { return 0; }] *)
Definition binary0 : native :=
  mk_native 6 "f" [t_s7_int; t_s7_int] t_s7_int
    (fun _ => Returns (c_s7_int 0)).

(** A class [v2] registered under tag 0, its container at address 0. *)
Definition sc_v2 : s7_scheme :=
  mk_s7_scheme {["v2" := 0]} {["v2" := s7_let 0]} ["v2"].

(** The built-in [+] and [-] of a fresh interpreter. *)
Definition builtins : gmap string s7_value :=
  {["+" := procedure 100; "-" := procedure 101]}.

(** An evaluator that knows integer addition under procedure 100 and
    answers the unspecified value for any other procedure. *)
Definition eval (f : s7_value) (args : list s7_value) : outcome s7_value :=
  match f, args with
  | procedure 100, [s7_make_integer a; s7_make_integer b] =>
      Returns (s7_make_integer (a + b))
  | _, _ => Returns s7_unspecified
  end.

(** An instance of [v2], boxed. *)
Definition a_v2 : s7_value := c_object 0 42 (s7_let 0).

(** An instance whose only container is that of [v2], with no method
    in it. *)
Definition st_no_method : Scheme :=
  mk_Scheme {[0%nat := ∅]} builtins [] [] ∅.

(** A fresh instance on which another class, whose container is at
    address 1, registered a method for [-]. *)
Definition st_minus : Scheme :=
  default (Scheme_new builtins)
    (usertype_add_method_op (Scheme_new builtins) (s7_let 1) Sub binary0).

(** Two classes registering [+], the first also [-]. *)
Definition regs3 : list (s7_value * MethodOp * native) :=
  [(s7_let 0, Add, binary0); (s7_let 1, Add, binary0);
   (s7_let 0, Sub, binary0)].

Definition st_after_regs3 : Scheme :=
  default (Scheme_new builtins) (add_method_ops (Scheme_new builtins) regs3).

(** Two boxed [v2] objects in distinct cells, holding equal states, and
    an integer cell. *)
Definition h_a : s7_handle := mk_handle 1000 (c_object 0 42 (s7_let 0)).
Definition h_b : s7_handle := mk_handle 2000 (c_object 0 42 (s7_let 0)).
Definition h_int : s7_handle := mk_handle 3000 (s7_make_integer 42).

(** A class indexed by [s7_int] with [s7_int] elements: a counter whose
    element [i] reads as the state plus [i], and which an assignment
    sets to the value assigned. *)
Definition counter : subscriptable :=
  mk_subscriptable t_s7_int t_s7_int
    (fun o i => match i with
                | c_s7_int k => Returns (c_s7_int (o + k))
                | _ => NoBehaviour
                end)
    (fun o i v => match v with
                  | c_s7_int k => Returns k
                  | _ => NoBehaviour
                  end).
End Examples.

(** * Properties *)

(** ** The effect monad *)

Lemma bind_ret {A B} (a : A) (k : A -> M B) : bind (ret a) k = k a.
Proof. unfold bind, ret. destruct (k a); reflexivity. Qed.

Lemma bind_defined_Some {A B} (a : A) (k : A -> M B) :
  bind (defined (Some a)) k = k a.
Proof. apply bind_ret. Qed.

Lemma bind_log {B} (e : event) (k : unit -> M B) :
  bind (log e) k = (e :: trace (k tt), result (k tt)).
Proof. unfold bind, log, trace, result. destruct (k tt); reflexivity. Qed.

Lemma bind_lift_Returns {A B} (a : A) (k : A -> M B) :
  bind (lift (Returns a)) k = k a.
Proof. apply bind_ret. Qed.

Lemma M_eta {A} (m : M A) : m = (trace m, result m).
Proof. destruct m; reflexivity. Qed.

Lemma bind_ret_r {A} (m : M A) : bind m ret = m.
Proof.
  destruct m as [t [a|e|]]; unfold bind, ret; cbn; try reflexivity.
  rewrite app_nil_r. reflexivity.
Qed.

Lemma bind_assoc {A B C} (m : M A) (k : A -> M B) (h : B -> M C) :
  bind (bind m k) h = bind m (fun a => bind (k a) h).
Proof.
  destruct m as [t [a|e|]]; unfold bind; cbn; try reflexivity.
  destruct (k a) as [t' [b|e|]]; cbn; try reflexivity.
  destruct (h b) as [t'' r]. rewrite app_assoc. reflexivity.
Qed.

Lemma bind_ext {A B} (m : M A) (k k' : A -> M B) :
  (forall a, k a = k' a) -> bind m k = bind m k'.
Proof.
  intros H. destruct m as [t [a|e|]]; unfold bind; cbn; try reflexivity.
  rewrite H. reflexivity.
Qed.

Lemma bind_returned {A B} (t : list event) (a : A) (k : A -> M B) :
  bind (t, Returns a) k = ((t ++ trace (k a))%list, result (k a)).
Proof. unfold bind, trace, result. destruct (k a); reflexivity. Qed.

Lemma for_each_app {A B} (f : A -> M B) (l1 l2 : list A) :
  for_each f (l1 ++ l2) =
  bind (for_each f l1) (fun a =>
    bind (for_each f l2) (fun b => ret (a ++ b)%list)).
Proof.
  induction l1 as [|x l1 IH]; cbn [for_each app].
  - rewrite bind_ret. cbn. symmetry. apply bind_ret_r.
  - rewrite bind_assoc. apply bind_ext. intros b.
    rewrite IH, !bind_assoc. apply bind_ext. intros bs.
    rewrite bind_ret, bind_assoc. apply bind_ext. intros cs.
    rewrite bind_ret. reflexivity.
Qed.

(** ** Argument lists *)

Lemma fill_array_s7_list (vs rest : list s7_value) :
  fill_array (length vs) (s7_list (vs ++ rest)) = Some vs.
Proof.
  induction vs as [|v vs IH]; [reflexivity|].
  change (fill_array (length (v :: vs)) (s7_list ((v :: vs) ++ rest)))
    with ('(a, rest') ← Some (v, s7_list (vs ++ rest));
          arr ← fill_array (length vs) rest'; Some (a :: arr)).
  cbn. rewrite IH. reflexivity.
Qed.

Lemma fill_array_exact (vs : list s7_value) (n : nat) :
  length vs = n -> fill_array n (s7_list vs) = Some vs.
Proof.
  intros <-. rewrite <- (app_nil_r vs) at 2. apply fill_array_s7_list.
Qed.

Lemma list_length_aux_s7_list (vs : list s7_value) (n : Z) :
  list_length_aux (s7_list vs) n = n + Z.of_nat (length vs).
Proof.
  revert n. induction vs as [|v vs IH]; intros n; simpl.
  - lia.
  - unfold s7_list in IH. rewrite IH. lia.
Qed.

Lemma s7_list_length_s7_list (vs : list s7_value) :
  s7_list_length (s7_list vs) = Z.of_nat (length vs).
Proof. unfold s7_list_length. rewrite list_length_aux_s7_list. lia. Qed.

Lemma List_at_s7_list (vs : list s7_value) (i : nat) :
  List_at (s7_list vs) i = vs !! i.
Proof.
  revert vs. induction i as [|i IH]; intros [|v vs]; simpl; try reflexivity.
  apply IH.
Qed.

Lemma List_elements_s7_list (vs : list s7_value) :
  List_elements (s7_list vs) = vs.
Proof. induction vs as [|v vs IH]; simpl; [reflexivity|]. f_equal. apply IH. Qed.

Lemma find_false_Some (bools : list bool) (i : nat) :
  bools !! i = Some false ->
  (forall j, (j < i)%nat -> bools !! j = Some true) ->
  find_false bools = Some i.
Proof.
  revert i. induction bools as [|b bools IH]; intros i Hi Hlt.
  - discriminate.
  - destruct i as [|i]; simpl in *.
    + inversion Hi; reflexivity.
    + specialize (Hlt 0%nat ltac:(lia)) as H0. simpl in H0.
      inversion H0; subst. rewrite (IH i); [reflexivity|assumption|].
      intros j Hj. apply (Hlt (S j)). lia.
Qed.

Lemma find_false_None (bools : list bool) :
  Forall (fun b => b = true) bools -> find_false bools = None.
Proof.
  induction 1 as [|b bools Hb _ IH]; simpl; [reflexivity|].
  subst b. rewrite IH. reflexivity.
Qed.

Lemma zip_with_is_all (sc : s7_scheme) (Ts : list ctype) (vs : list s7_value) :
  Forall2 (fun T v => is_ sc T v = true) Ts vs ->
  Forall (fun b => b = true) (zip_with (is_ sc) Ts vs).
Proof. induction 1; simpl; constructor; assumption. Qed.

(** ** The call adapter *)

Lemma mapM_to_zip (S7_DEBUGGING : bool) (sc : s7_scheme) (Ts : list ctype)
    (vs : list s7_value) (xs : list cvalue) :
  Forall3 (fun T v x => to S7_DEBUGGING sc T v = Some x) Ts vs xs ->
  mapM (M := option) (fun '(T, p) => to S7_DEBUGGING sc T p) (zip Ts vs)
  = Some xs.
Proof.
  induction 1 as [|T v x Ts vs xs Hx _ IH]; [reflexivity|].
  cbn. rewrite Hx. cbn. cbn in IH. rewrite IH. reflexivity.
Qed.

Lemma invoke_converted (S7_DEBUGGING : bool) (sc : s7_scheme) (F : native)
    (vs : list s7_value) (xs : list cvalue) :
  Forall3 (fun T v x => to S7_DEBUGGING sc T v = Some x) (Args F) vs xs ->
  invoke S7_DEBUGGING sc F vs =
  bind (log (Invoke (L F) xs)) (fun _ =>
    bind (lift (lambda F xs)) (fun r =>
      match R F with
      | t_void => ret (Some s7_unspecified)
      | _ => defined (from sc r)
      end)).
Proof.
  intros H. unfold invoke. rewrite (mapM_to_zip _ _ _ _ _ H).
  rewrite bind_defined_Some. reflexivity.
Qed.

Lemma from_is_covered (sc : s7_scheme) (r : cvalue) :
  is_covers_result sc (ctype_of r) = true ->
  exists v, from sc r = Some (Some v) /\ is_ sc (ctype_of r) v = true.
Proof.
  destruct r; cbn; try discriminate;
    try (intros _; eexists; split; reflexivity).
  intros H. apply andb_true_iff in H as [Ht Hl].
  apply bool_decide_eq_true in Ht as [t Ht].
  apply bool_decide_eq_true in Hl as [l Hl].
  unfold make_c_object. rewrite Ht. cbn. rewrite Hl. cbn.
  eexists. split; [reflexivity|]. cbn.
  apply bool_decide_eq_true_2. reflexivity.
Qed.

Section CallAdapter.
Variable sc : s7_scheme.
Variable F : native.

(** C2. In a validation build, when position [i] (counted from 0 here, so
    [i + 1] in the error) holds the first argument that fails its [is]
    check, [call_fn] raises the wrong-type error carrying the display name
    of the adapter, the 1-based position, the offending value and the
    display name of the expected type, and its trace is empty: the native
    callable is not invoked. *)
Theorem call_fn_wrong_type (vs : list s7_value) (i : nat) (v : s7_value)
    (T : ctype) (type : string) :
  length vs = arity F ->
  Args F !! i = Some T ->
  vs !! i = Some v ->
  is_ sc T v = false ->
  (forall j A w, (j < i)%nat -> Args F !! j = Some A -> vs !! j = Some w ->
                 is_ sc A w = true) ->
  Forall (fun A => is_Some (type_to_string sc A false)) (Args F) ->
  type_to_string sc T false = Some type ->
  call_fn true sc F (s7_list vs) =
  ([], Raises (s7_wrong_type_arg_error (name F) (Z.of_nat i + 1) v type)).
Proof.
  intros Hlen HT Hv Hfail Hbefore Htypes Htype.
  unfold call_fn. rewrite (fill_array_exact vs _ Hlen), bind_defined_Some.
  assert (Hfind : find_false (zip_with (is_ sc) (Args F) vs) = Some i).
  { apply find_false_Some.
    - rewrite lookup_zip_with, HT, Hv. cbn. rewrite Hfail. reflexivity.
    - intros j Hj. rewrite lookup_zip_with.
      destruct (Args F !! j) as [A|] eqn:HA.
      + destruct (vs !! j) as [w|] eqn:Hw.
        * cbn. rewrite (Hbefore j A w Hj HA Hw). reflexivity.
        * apply lookup_ge_None in Hw. apply lookup_lt_Some in Hv. lia.
      + apply lookup_ge_None in HA. apply lookup_lt_Some in HT. lia. }
  cbn match. rewrite Hfind.
  destruct (proj2 (mapM_is_Some (fun A => type_to_string sc A false) (Args F)))
    as [types Htys].
  { exact Htypes. }
  rewrite Htys, bind_defined_Some, List_at_s7_list, Hv, bind_defined_Some.
  apply mapM_Some in Htys.
  destruct (Forall2_lookup_l _ _ _ _ _ Htys HT) as (ty & Hty & Hty').
  rewrite Hty, bind_defined_Some.
  assert (ty = type) as -> by congruence. reflexivity.
Qed.

(** C3, as amended. With exactly [n] arguments, each satisfying [is<Ai>]
    and each converted by [to<Ai>], [call_fn] invokes the native callable
    exactly once, with the converted arguments in position order; when the
    callable returns [r] the adapter returns [from(r)], which satisfies
    [is<R>] whenever [R] is one of the types [is] tests by kind or a class
    registered with the instance, and it returns the unspecified value when
    [R] is [void]. *)
Theorem call_fn_well_typed (S7_DEBUGGING : bool) (vs : list s7_value)
    (xs : list cvalue) (r : cvalue) :
  length vs = arity F ->
  Forall2 (fun T v => is_ sc T v = true) (Args F) vs ->
  Forall3 (fun T v x => to S7_DEBUGGING sc T v = Some x) (Args F) vs xs ->
  lambda F xs = Returns r ->
  ctype_of r = R F ->
  trace (call_fn S7_DEBUGGING sc F (s7_list vs)) = [Invoke (L F) xs]
  /\ (R F = t_void ->
      result (call_fn S7_DEBUGGING sc F (s7_list vs))
      = Returns (Some s7_unspecified))
  /\ (R F <> t_void -> forall p, from sc r = Some p ->
      result (call_fn S7_DEBUGGING sc F (s7_list vs)) = Returns p)
  /\ (is_covers_result sc (R F) = true ->
      exists v, result (call_fn S7_DEBUGGING sc F (s7_list vs))
                = Returns (Some v)
                /\ is_ sc (R F) v = true).
Proof.
  intros Hlen His Hto Hr HR.
  assert (Hcall : call_fn S7_DEBUGGING sc F (s7_list vs) =
                  (Invoke (L F) xs ::
                     trace (match R F with
                            | t_void => ret (Some s7_unspecified)
                            | _ => defined (from sc r)
                            end),
                   result (match R F with
                           | t_void => ret (Some s7_unspecified)
                           | _ => defined (from sc r)
                           end))).
  { unfold call_fn. rewrite (fill_array_exact vs _ Hlen), bind_defined_Some.
    rewrite (find_false_None _ (zip_with_is_all _ _ _ His)).
    replace (if S7_DEBUGGING then None else None) with (@None nat)
      by (destruct S7_DEBUGGING; reflexivity).
    rewrite (invoke_converted _ _ _ _ _ Hto), bind_log, Hr.
    rewrite bind_lift_Returns. reflexivity. }
  rewrite Hcall. unfold trace, result. cbn [fst snd].
  repeat split.
  - destruct (R F); try reflexivity; destruct (from sc r); reflexivity.
  - intros ->. reflexivity.
  - intros Hnv p Hp. rewrite Hp. destruct (R F); try reflexivity.
    contradiction.
  - intros Hk. rewrite <- HR in Hk.
    destruct (from_is_covered sc r Hk) as (v & Hv & Hisv).
    exists v. rewrite Hv, <- HR. split; [|exact Hisv].
    destruct (ctype_of r); try reflexivity; discriminate.
Qed.

End CallAdapter.

Import Examples.

(** C2 on a concrete call: the second argument of a two-integer adapter
    is a boolean. *)
Lemma call_fn_wrong_type_witness :
  call_fn true sc0 binary0
    (s7_list [s7_make_integer 1; s7_make_boolean true]) =
  ([], Raises (s7_wrong_type_arg_error "f" 2 (s7_make_boolean true)
                 "integer")).
Proof.
  apply (call_fn_wrong_type sc0 binary0
           [s7_make_integer 1; s7_make_boolean true] 1
           (s7_make_boolean true) t_s7_int "integer").
  - reflexivity.
  - reflexivity.
  - reflexivity.
  - reflexivity.
  - intros [|j] A w Hj HA Hw; [|lia].
    inversion HA; inversion Hw; reflexivity.
  - repeat constructor; eexists; reflexivity.
  - reflexivity.
Defined.

(** C3 on a concrete call: [(f 5)] for the successor on [s7_int]. *)
Lemma call_fn_well_typed_witness :
  trace (call_fn true sc0 succ_s7_int (s7_list [s7_make_integer 5]))
  = [Invoke 0 [c_s7_int 5]]
  /\ exists v, result (call_fn true sc0 succ_s7_int
                        (s7_list [s7_make_integer 5])) = Returns (Some v)
              /\ is_ sc0 t_s7_int v = true.
Proof.
  destruct (call_fn_well_typed sc0 succ_s7_int true [s7_make_integer 5]
              [c_s7_int 5] (c_s7_int 6)) as (Ht & _ & _ & Hk).
  - reflexivity.
  - repeat constructor.
  - repeat constructor.
  - reflexivity.
  - reflexivity.
  - split; [exact Ht | exact (Hk eq_refl)].
Defined.

(** Against C3 as the specification words it: a callable returning
    [std::string], a type meant for results only.  The call has the declared arity (none)
    and the callable is invoked once, but the string handed back does not
    satisfy [is<std::string>], which falls to the c-object test. *)
Lemma call_fn_std_string_result_fails_is :
  call_fn true sc0 hello (s7_list []) =
  ([Invoke 4 []], Returns (Some (s7_make_string_with_length "x")))
  /\ is_ sc0 (R hello) (s7_make_string_with_length "x") = false
  /\ ~ (exists v, result (call_fn true sc0 hello (s7_list []))
                   = Returns (Some v) /\ is_ sc0 (R hello) v = true).
Proof.
  split; [reflexivity|]. split; [reflexivity|].
  intros (v & Hv & Hisv). cbn in Hv. inversion Hv; subst v. discriminate.
Qed.

(** ** The overload resolver *)

Lemma trace_bind {A B} (m : M A) (k : A -> M B) :
  exists t, trace (bind m k) = (trace m ++ t)%list.
Proof.
  destruct m as [t [a|e|]]; unfold bind, trace; cbn.
  - destruct (k a) as [t' r]. exists t'. reflexivity.
  - exists []. rewrite app_nil_r. reflexivity.
  - exists []. rewrite app_nil_r. reflexivity.
Qed.

Lemma call_fn_varargs_returns (sc : s7_scheme) (F : native) (T : ctype)
    (args : s7_value) (r : cvalue) (p : s7_pointer) :
  lambda F [c_VarArgs (mkVarArgs T args (name F) 1)] = Returns r ->
  converted_result sc F r = Some p ->
  call_fn_varargs sc F T args =
  ([Invoke (L F) [c_VarArgs (mkVarArgs T args (name F) 1)]], Returns p).
Proof.
  intros Hr Hp. unfold call_fn_varargs.
  rewrite bind_log, Hr, bind_lift_Returns.
  unfold converted_result in Hp.
  destruct (R F); rewrite ?Hp; try reflexivity;
    inversion Hp; reflexivity.
Qed.

Lemma call_fn_varargs_trace (sc : s7_scheme) (F : native) (T : ctype)
    (args : s7_value) :
  exists t, trace (call_fn_varargs sc F T args) =
            Invoke (L F) [c_VarArgs (mkVarArgs T args (name F) 1)] :: t.
Proof.
  unfold call_fn_varargs. rewrite bind_log. eexists. reflexivity.
Qed.

Lemma match_fn_varargs (S7_DEBUGGING : bool) (sc : s7_scheme) (F : native)
    (args : s7_value) (length : Z) :
  function_has_varargs F = true ->
  match_fn S7_DEBUGGING sc F args length
  = call_fn_varargs sc F (varargs_type F) args.
Proof. intros H. unfold match_fn. rewrite H. reflexivity. Qed.

Lemma forallb_false_find_false (bools : list bool) :
  forallb (fun b : bool => b) bools = false -> is_Some (find_false bools).
Proof.
  induction bools as [|[] bools IH]; simpl; intros H.
  - discriminate.
  - destruct (IH H) as [i Hi]. rewrite Hi. eexists; reflexivity.
  - eexists; reflexivity.
Qed.

Lemma match_fn_no_match (S7_DEBUGGING : bool) (sc : s7_scheme) (F : native)
    (vs : list s7_value) :
  candidate_matches sc F vs = false ->
  match_fn S7_DEBUGGING sc F (s7_list vs) (Z.of_nat (length vs)) = ret nullptr.
Proof.
  unfold candidate_matches, match_fn, _match_fn. intros H.
  apply orb_false_iff in H as [-> H].
  apply andb_false_iff in H as [H|H].
  - apply bool_decide_eq_false in H.
    destruct (Z.eqb_spec (Z.of_nat (length vs)) (Z.of_nat (arity F)))
      as [E|E]; [|reflexivity].
    exfalso. apply H. lia.
  - destruct (Z.eqb_spec (Z.of_nat (length vs)) (Z.of_nat (arity F)))
      as [E|E]; [|reflexivity].
    cbn [negb]. rewrite (fill_array_exact vs (arity F)) by lia.
    rewrite bind_defined_Some.
    rewrite (bool_decide_eq_true_2 _ (forallb_false_find_false _ H)).
    reflexivity.
Qed.

Lemma for_each_no_match (S7_DEBUGGING : bool) (sc : s7_scheme)
    (Fns : list native) (vs : list s7_value) :
  Forall (fun F => candidate_matches sc F vs = false) Fns ->
  for_each (fun F => match_fn S7_DEBUGGING sc F (s7_list vs)
                       (Z.of_nat (length vs))) Fns
  = ret (map (fun _ => nullptr) Fns).
Proof.
  induction 1 as [|F Fns HF _ IH]; [reflexivity|].
  cbn [for_each map]. rewrite (match_fn_no_match _ _ _ _ HF), bind_ret.
  rewrite IH, bind_ret. reflexivity.
Qed.

Lemma find_non_null_all_null {A} (l : list A) :
  find_non_null (map (fun _ => nullptr) l) = None.
Proof. induction l; [reflexivity | assumption]. Qed.

Lemma invoke_returns (S7_DEBUGGING : bool) (sc : s7_scheme) (F : native)
    (vs : list s7_value) (xs : list cvalue) (r : cvalue) (p : s7_pointer) :
  Forall3 (fun T v x => to S7_DEBUGGING sc T v = Some x) (Args F) vs xs ->
  lambda F xs = Returns r ->
  converted_result sc F r = Some p ->
  invoke S7_DEBUGGING sc F vs = ([Invoke (L F) xs], Returns p).
Proof.
  intros Hto Hr Hp. rewrite (invoke_converted _ _ _ _ _ Hto).
  rewrite bind_log, Hr, bind_lift_Returns. unfold converted_result in Hp.
  destruct (R F); rewrite ?Hp; try reflexivity; inversion Hp; reflexivity.
Qed.

(** A fixed-arity candidate that matches is invoked by [match_fn]
    itself. *)
Lemma match_fn_match (S7_DEBUGGING : bool) (sc : s7_scheme) (F : native)
    (vs : list s7_value) (xs : list cvalue) (r : cvalue) (p : s7_pointer) :
  function_has_varargs F = false ->
  length vs = arity F ->
  Forall2 (fun T v => is_ sc T v = true) (Args F) vs ->
  Forall3 (fun T v x => to S7_DEBUGGING sc T v = Some x) (Args F) vs xs ->
  lambda F xs = Returns r ->
  converted_result sc F r = Some p ->
  match_fn S7_DEBUGGING sc F (s7_list vs) (Z.of_nat (length vs))
  = ([Invoke (L F) xs], Returns p).
Proof.
  intros Hfix Hlen His Hto Hr Hp. unfold match_fn, _match_fn.
  rewrite Hfix, Hlen, Z.eqb_refl. cbn [negb].
  rewrite (fill_array_exact vs _ Hlen), bind_defined_Some.
  rewrite (find_false_None _ (zip_with_is_all _ _ _ His)).
  rewrite bool_decide_eq_false_2 by (intros [? ?]; discriminate).
  cbn [negb]. apply (invoke_returns _ _ _ _ _ _ _ Hto Hr Hp).
Qed.

(** Two fixed-arity candidates that both match: both native callables
    run, in declaration order, before the result of the first is
    returned. *)
Lemma overload_two_matches (S7_DEBUGGING : bool) (sc : s7_scheme)
    (F G : native) (vs : list s7_value) (xsF xsG : list cvalue)
    (rF rG : cvalue) (v : s7_value) (pG : s7_pointer) :
  function_has_varargs F = false -> function_has_varargs G = false ->
  length vs = arity F -> length vs = arity G ->
  Forall2 (fun T v => is_ sc T v = true) (Args F) vs ->
  Forall2 (fun T v => is_ sc T v = true) (Args G) vs ->
  Forall3 (fun T v x => to S7_DEBUGGING sc T v = Some x) (Args F) vs xsF ->
  Forall3 (fun T v x => to S7_DEBUGGING sc T v = Some x) (Args G) vs xsG ->
  lambda F xsF = Returns rF -> lambda G xsG = Returns rG ->
  converted_result sc F rF = Some (Some v) ->
  converted_result sc G rG = Some pG ->
  _make_overload S7_DEBUGGING sc [F; G] (s7_list vs)
  = ([Invoke (L F) xsF; Invoke (L G) xsG], Returns (Some v)).
Proof.
  intros HfF HfG HlF HlG HiF HiG HtF HtG HrF HrG HpF HpG.
  unfold _make_overload. rewrite s7_list_length_s7_list. cbn [for_each].
  rewrite (match_fn_match _ _ F vs xsF rF (Some v)) by assumption.
  rewrite (match_fn_match _ _ G vs xsG rG pG) by assumption.
  reflexivity.
Qed.

(** C1. Two candidates that both accept an integer argument: the dispatch
    function runs the native callable of the first and then that of the
    second, and only afterwards returns the result of the first. *)
Theorem overload_invokes_later_match :
  _make_overload true sc0 [succ_s7_int; plus2_int]
    (s7_list [s7_make_integer 5]) =
  ([Invoke (L succ_s7_int) [c_s7_int 5]; Invoke (L plus2_int) [c_int 5]],
   Returns (Some (s7_make_integer 6))).
Proof. reflexivity. Qed.

Lemma find_non_null_app (rs rs' : list s7_pointer) :
  find_non_null rs = None ->
  find_non_null (rs ++ rs') = find_non_null rs'.
Proof.
  induction rs as [|[p|] rs IH]; cbn; intros H;
    [reflexivity | discriminate | exact (IH H)].
Qed.

(** C5, as amended. During overload resolution a variadic candidate is
    tried whatever the length of the argument list: [match_fn] makes no
    arity test for it, so once the candidates declared before it have been
    tried its native callable is invoked with a cursor over the whole
    list; and when none of them produced a result and it returns one, that
    result is what the dispatch function returns once the remaining
    candidates have been tried. *)
Theorem variadic_candidate_any_length (S7_DEBUGGING : bool)
    (sc : s7_scheme) (pre : list native) (F : native) (rest : list native)
    (args : s7_value) (t0 : list event) (rs0 : list s7_pointer) :
  function_has_varargs F = true ->
  for_each (fun G => match_fn S7_DEBUGGING sc G args (s7_list_length args))
    pre = (t0, Returns rs0) ->
  (exists t, trace (_make_overload S7_DEBUGGING sc (pre ++ F :: rest) args)
             = (t0 ++ Invoke (L F) [cursor_of F args] :: t)%list)
  /\ (forall r v t rs,
        find_non_null rs0 = None ->
        lambda F [cursor_of F args] = Returns r ->
        converted_result sc F r = Some (Some v) ->
        for_each (fun G => match_fn S7_DEBUGGING sc G args
                             (s7_list_length args)) rest
        = (t, Returns rs) ->
        _make_overload S7_DEBUGGING sc (pre ++ F :: rest) args
        = ((t0 ++ Invoke (L F) [cursor_of F args] :: t)%list,
           Returns (Some v))).
Proof.
  intros Hva Hpre. unfold _make_overload.
  rewrite for_each_app, Hpre. cbn [for_each].
  rewrite (match_fn_varargs _ _ _ _ _ Hva).
  rewrite bind_assoc, bind_returned. split.
  - destruct (call_fn_varargs_trace sc F (varargs_type F) args) as [t1 Ht1].
    cbn [trace fst].
    match goal with
    | |- exists t, (t0 ++ trace (bind (bind (bind ?m ?k1) ?k2) ?k3))%list = _ =>
        destruct (trace_bind (bind (bind m k1) k2) k3) as [t2 Ht2];
        destruct (trace_bind (bind m k1) k2) as [t3 Ht3];
        destruct (trace_bind m k1) as [t4 Ht4];
        rewrite Ht2, Ht3, Ht4, Ht1
    end.
    eexists. cbn. reflexivity.
  - intros r v t rs Hnull Hr Hv Hrest.
    rewrite (call_fn_varargs_returns sc F _ args r (Some v) Hr Hv).
    rewrite Hrest. cbn. rewrite !app_nil_r.
    rewrite (find_non_null_app _ _ Hnull). cbn.
    rewrite ?app_nil_r. reflexivity.
Qed.

(** C5 on a concrete call: the variadic candidate on an empty call,
    declared after a one-argument candidate that does not match it. *)
Lemma variadic_candidate_any_length_witness :
  _make_overload true sc0 [succ_s7_int; variadic7; nullary9] (s7_list [])
  = ([Invoke 2 [cursor_of variadic7 (s7_list [])]; Invoke 3 []],
     Returns (Some (s7_make_integer 7))).
Proof.
  exact (proj2 (variadic_candidate_any_length true sc0 [succ_s7_int]
                  variadic7 [nullary9] (s7_list []) [] [nullptr]
                  eq_refl eq_refl)
           (c_s7_int 7) (s7_make_integer 7) [Invoke 3 []]
           [Some (s7_make_integer 9)] eq_refl eq_refl eq_refl eq_refl).
Defined.

(** Against C5 as the specification words it.  The variadic candidate has
    arity 1, the arity [min_arity] takes for it; with a nullary candidate
    beside it the runtime accepts a call without arguments, and on that
    call, shorter than the arity, the variadic candidate is invoked and its
    result is the one returned. *)
Lemma variadic_selected_below_arity :
  function_has_varargs variadic7 = true
  /\ arity variadic7 = 1%nat
  /\ s7_list_length (s7_list []) < Z.of_nat (arity variadic7)
  /\ accepts (define_function_overload variadic7 [nullary9]) 0 = true
  /\ _make_overload true sc0 [variadic7; nullary9] (s7_list []) =
     ([Invoke (L variadic7) [cursor_of variadic7 (s7_list [])];
       Invoke (L nullary9) []],
      Returns (Some (s7_make_integer 7))).
Proof. repeat split. Qed.

(** C6. When no candidate matches the call, the dispatch function invokes
    no native callable (its trace is empty) and raises the error tagged
    [no-overload-match], whose payload is the message, the list of the
    kinds of the actual arguments and the signature of every candidate, in
    declaration order. *)
Theorem no_overload_match (S7_DEBUGGING : bool) (sc : s7_scheme)
    (Fns : list native) (vs : list s7_value) (sigs : list signature) :
  Forall (fun F => candidate_matches sc F vs = false) Fns ->
  Forall2 (fun F s => make_signature sc F = Some s) Fns sigs ->
  _make_overload S7_DEBUGGING sc Fns (s7_list vs) =
  ([], Raises (s7_error (s7_make_symbol "no-overload-match")
                 (s7_list
                    (s7_make_string_with_length
                       (no_match_message (length Fns))
                     :: s7_list (map type_symbol vs)
                     :: map signature_value sigs)))).
Proof.
  intros Hno Hsigs. unfold _make_overload.
  rewrite s7_list_length_s7_list, (for_each_no_match _ _ _ _ Hno), bind_ret.
  rewrite find_non_null_all_null.
  unfold no_match_info. rewrite List_elements_s7_list.
  apply mapM_Some in Hsigs. rewrite Hsigs. reflexivity.
Qed.

(** C6 on a concrete call: a boolean passed to two integer candidates. *)
Lemma no_overload_match_witness :
  _make_overload true sc0 [succ_s7_int; binary0]
    (s7_list [s7_make_boolean true]) =
  ([], Raises (s7_error (s7_make_symbol "no-overload-match")
                 (s7_list
                    [s7_make_string_with_length (no_match_message 2);
                     s7_list [s7_make_symbol "boolean"];
                     s7_list [s7_make_symbol "integer?";
                              s7_make_symbol "integer?"];
                     s7_list [s7_make_symbol "integer?";
                              s7_make_symbol "integer?";
                              s7_make_symbol "integer?"]]))).
Proof.
  apply (no_overload_match true sc0 [succ_s7_int; binary0]
           [s7_make_boolean true]
           [s7_make_signature [s7_make_symbol "integer?";
                               s7_make_symbol "integer?"];
            s7_make_signature [s7_make_symbol "integer?";
                               s7_make_symbol "integer?";
                               s7_make_symbol "integer?"]]).
  - repeat constructor.
  - repeat constructor.
Defined.

(** ** The value converter *)

Lemma wrap_in_range (w z : Z) : 0 < w -> in_range w z -> wrap w z = z.
Proof.
  unfold wrap, in_range. intros Hw Hz.
  assert (H2 : 2 ^ w = 2 * 2 ^ (w - 1)).
  { replace w with (1 + (w - 1)) at 1 by lia.
    rewrite Z.pow_add_r by lia. reflexivity. }
  rewrite Z.mod_small; lia.
Qed.

(** The scalar types whose conversions are exact: [from] then [to] gives
    the value back. *)
Lemma round_trip_bool (S7_DEBUGGING : bool) (sc : s7_scheme) (b : bool) :
  exists v, from sc (c_bool b) = Some (Some v)
            /\ is_ sc t_bool v = true
            /\ to S7_DEBUGGING sc t_bool v = Some (c_bool b).
Proof.
  eexists; repeat split; destruct S7_DEBUGGING, b; reflexivity.
Qed.

Lemma round_trip_s7_int (S7_DEBUGGING : bool) (sc : s7_scheme) (i : Z) :
  exists v, from sc (c_s7_int i) = Some (Some v)
            /\ is_ sc t_s7_int v = true
            /\ to S7_DEBUGGING sc t_s7_int v = Some (c_s7_int i).
Proof. eexists; repeat split; destruct S7_DEBUGGING; reflexivity. Qed.

Lemma round_trip_double (S7_DEBUGGING : bool) (sc : s7_scheme) (d : double) :
  exists v, from sc (c_double d) = Some (Some v)
            /\ is_ sc t_double v = true
            /\ to S7_DEBUGGING sc t_double v = Some (c_double d).
Proof. eexists; repeat split; destruct S7_DEBUGGING; reflexivity. Qed.

(** The narrowing integer types: equal modulo truncation, hence equal for
    a value of the type's range. *)
Lemma round_trip_int (S7_DEBUGGING : bool) (sc : s7_scheme) (i : Z) :
  exists v, from sc (c_int i) = Some (Some v)
            /\ is_ sc t_int v = true
            /\ to S7_DEBUGGING sc t_int v = Some (c_int (wrap 32 i))
            /\ (in_range 32 i -> wrap 32 i = i).
Proof.
  eexists; repeat split; try (destruct S7_DEBUGGING; reflexivity).
  apply wrap_in_range; lia.
Qed.

Lemma round_trip_short (S7_DEBUGGING : bool) (sc : s7_scheme) (i : Z) :
  exists v, from sc (c_short i) = Some (Some v)
            /\ is_ sc t_short v = true
            /\ to S7_DEBUGGING sc t_short v = Some (c_short (wrap 16 i))
            /\ (in_range 16 i -> wrap 16 i = i).
Proof.
  eexists; repeat split; try (destruct S7_DEBUGGING; reflexivity).
  apply wrap_in_range; lia.
Qed.

Lemma round_trip_long (S7_DEBUGGING : bool) (sc : s7_scheme) (i : Z) :
  exists v, from sc (c_long i) = Some (Some v)
            /\ is_ sc t_long v = true
            /\ to S7_DEBUGGING sc t_long v = Some (c_long (wrap 64 i))
            /\ (in_range 64 i -> wrap 64 i = i).
Proof.
  eexists; repeat split; try (destruct S7_DEBUGGING; reflexivity).
  apply wrap_in_range; lia.
Qed.

(** [float]: what comes back is the float widened to a double and rounded
    to binary32 again. *)
Lemma round_trip_float (S7_DEBUGGING : bool) (sc : s7_scheme) (f : float) :
  exists v, from sc (c_float f) = Some (Some v)
            /\ is_ sc t_float v = true
            /\ to S7_DEBUGGING sc t_float v
               = Some (c_float (double_to_float (float_to_double f))).
Proof. eexists; repeat split; destruct S7_DEBUGGING; reflexivity. Qed.


(** Strings: what comes back is the text up to the first NUL byte.  A C
    string has none; a [std::string_view] that has one is cut there. *)
Lemma round_trip_const_char_ptr (S7_DEBUGGING : bool) (sc : s7_scheme)
    (s : string) :
  exists v, from sc (c_const_char_ptr s) = Some (Some v)
            /\ is_ sc t_const_char_ptr v = true
            /\ to S7_DEBUGGING sc t_const_char_ptr v
               = Some (c_const_char_ptr (c_str s)).
Proof. eexists; repeat split; destruct S7_DEBUGGING; reflexivity. Qed.

Lemma round_trip_string_view (S7_DEBUGGING : bool) (sc : s7_scheme)
    (s : string) :
  exists v, from sc (c_string_view s) = Some (Some v)
            /\ is_ sc t_string_view v = true
            /\ to S7_DEBUGGING sc t_string_view v
               = Some (c_string_view (c_str s)).
Proof. eexists; repeat split; destruct S7_DEBUGGING; reflexivity. Qed.

Example string_view_embedded_nul :
  let s := ("a" ++ String Ascii.zero "b")%string in
  from sc0 (c_string_view s) = Some (Some (s7_make_string_with_length s))
  /\ to true sc0 t_string_view (s7_make_string_with_length s)
     = Some (c_string_view "a").
Proof. split; reflexivity. Qed.

(** C4. The round trip of an [unsigned char]: [from] makes a character,
    which [is<unsigned char>] accepts, but [to<unsigned char>] has no
    branch for the type (the branch is written for [char]) and reads the
    character as a c-object, so nothing comes back, in either build. *)
Theorem unsigned_char_round_trip_fails (S7_DEBUGGING : bool)
    (sc : s7_scheme) (x : Z) :
  from sc (c_unsigned_char x) = Some (Some (s7_make_character x))
  /\ is_ sc t_unsigned_char (s7_make_character x) = true
  /\ to S7_DEBUGGING sc t_unsigned_char (s7_make_character x) = None
  /\ to S7_DEBUGGING sc t_unsigned_char (s7_make_character x)
     <> Some (c_unsigned_char x).
Proof.
  assert (H : to S7_DEBUGGING sc t_unsigned_char (s7_make_character x) = None)
    by (destruct S7_DEBUGGING; reflexivity).
  repeat split; try assumption. rewrite H. discriminate.
Qed.

(** ** Arities of an overload set *)

Lemma list_min1_swap (a b : nat) (rest : list nat) :
  Nat.min a (list_min1 b rest) = Nat.min b (list_min1 a rest).
Proof.
  unfold list_min1. induction rest as [|c rest IH]; cbn; lia.
Qed.

(** The minimum is computed as it should be. *)
Lemma vmin_is_min (a : nat) (args : list nat) :
  vmin a args = list_min1 a args.
Proof.
  revert a. induction args as [|b rest IH]; intros a; [reflexivity|].
  cbn [vmin]. rewrite IH. apply list_min1_swap.
Qed.

Lemma vmax_two (a b : nat) : vmax a [b] = Nat.max a b.
Proof. reflexivity. Qed.

Lemma vmin_le_vmax (a : nat) (args : list nat) :
  (vmin a args <= vmax a args)%nat.
Proof. destruct args as [|b rest]; cbn; lia. Qed.

(** C10. Three candidates of arities 1, 2 and 3: [max_arity] is 2, not 3,
    because [vmax] recurses into [vmin]; the registration then declares
    one optional argument instead of two, and the runtime turns away the
    three-argument calls the third candidate is there for. *)
Theorem max_arity_three_candidates :
  map arity [succ_s7_int; binary0; ternary0] = [1; 2; 3]%nat
  /\ max_arity succ_s7_int [binary0; ternary0] = 2%nat
  /\ list_max1 (arity succ_s7_int) (map arity [binary0; ternary0]) = 3%nat
  /\ define_function_overload succ_s7_int [binary0; ternary0]
     = mk_declared 1 1 false
  /\ accepts (define_function_overload succ_s7_int [binary0; ternary0]) 3
     = false.
Proof. repeat split. Qed.

(** ** The substituted operator *)

(** Runs the monadic operations of a goal. *)
Ltac run_bridge :=
  unfold find_method, call, bind, defined, ret, log, lift, raise; cbn.

Section MethodOp.
Variable st : Scheme.
Variable s7_call : s7_value -> list s7_value -> outcome s7_value.
Variable op : MethodOp.
Variable old : s7_value.

(** With one argument or more the wrapper is the left fold of the
    step over the remaining arguments. *)
Lemma make_method_op_function_fold (v : s7_value) (vs : list s7_value)
    (caller : string) (n : Z) :
  make_method_op_function st s7_call op old
    (mkVarArgs t_s7_pointer (s7_list (v :: vs)) caller n)
  = method_op_loop st s7_call op old v vs.
Proof.
  unfold make_method_op_function, VarArgs_size. cbn [va_p].
  rewrite s7_list_length_s7_list.
  replace (Z.eqb (Z.of_nat (length (v :: vs))) 0) with false
    by (symmetry; apply Z.eqb_neq; cbn [length]; lia).
  cbn [s7_list foldr s7_car s7_cdr]. rewrite !bind_defined_Some.
  fold (s7_list vs). rewrite List_elements_s7_list. reflexivity.
Qed.

(** A pair with a native object: one lookup on the container of that
    operand, then one call of the method with both operands. *)
Lemma method_op_step_native (res arg p l m : s7_value) :
  s7_is_c_object res || s7_is_c_object arg = true ->
  p = (if s7_is_c_object res then res else arg) ->
  s7_c_object_let p = Some l ->
  s7_method st l (method_op_fn op) = m ->
  s7_is_procedure m = true ->
  method_op_step st s7_call op old res arg
  = ([FindMethod l (method_op_fn op); Call m [res; arg]],
     s7_call m [res; arg]).
Proof.
  intros Hobj -> Hl Hm Hproc. unfold method_op_step. rewrite Hobj, Hl.
  run_bridge. rewrite Hm, Hproc.
  destruct (s7_call m [res; arg]); reflexivity.
Qed.

(** A pair without a native object goes to the original operator, and
    no method is looked up. *)
Lemma method_op_step_builtin (res arg : s7_value) :
  s7_is_c_object res = false ->
  s7_is_c_object arg = false ->
  method_op_step st s7_call op old res arg
  = ([Call old [res; arg]], s7_call old [res; arg]).
Proof.
  intros Hr Ha. unfold method_op_step. rewrite Hr, Ha. run_bridge.
  destruct (s7_call old [res; arg]); reflexivity.
Qed.

(** A pair with a native object whose container has no method for the
    operator: the description of the error names [+], whatever the
    operator. *)
Lemma method_op_step_missing (res arg p l : s7_value) :
  s7_is_c_object res || s7_is_c_object arg = true ->
  p = (if s7_is_c_object res then res else arg) ->
  s7_c_object_let p = Some l ->
  s7_is_procedure (s7_method st l (method_op_fn op)) = false ->
  method_op_step st s7_call op old res arg
  = ([FindMethod l (method_op_fn op)],
     Raises (s7_wrong_type_arg_error (method_op_fn op) 0 res
               "a c-object that defines +")).
Proof.
  intros Hobj -> Hl Hproc. unfold method_op_step. rewrite Hobj, Hl.
  run_bridge. rewrite Hproc. reflexivity.
Qed.
End MethodOp.

(** [(+ native-instance 3)]: the method of the instance is called once,
    with the instance and 3. *)
Example plus_native_instance (m : s7_value) (r : outcome s7_value)
    (call : s7_value -> list s7_value -> outcome s7_value) :
  s7_is_procedure m = true ->
  make_method_op_function
    (mk_Scheme {[0%nat := {["+" := m]}]} builtins [] [] {[Add]})
    call Add (procedure 100)
    (mkVarArgs t_s7_pointer (s7_list [a_v2; s7_make_integer 3]) "+" 1)
  = ([FindMethod (s7_let 0) "+"; Call m [a_v2; s7_make_integer 3]],
     call m [a_v2; s7_make_integer 3]).
Proof.
  intros Hm. rewrite make_method_op_function_fold. cbn [method_op_loop].
  rewrite (method_op_step_native _ _ _ _ a_v2 (s7_make_integer 3) a_v2
             (s7_let 0) m); try reflexivity; try assumption.
  destruct (call m [a_v2; s7_make_integer 3]); reflexivity.
Qed.

(** [(+ 2 3)]: the original operator is called once and no method is
    looked up. *)
Example plus_two_integers :
  make_method_op_function st_no_method eval Add (procedure 100)
    (mkVarArgs t_s7_pointer
       (s7_list [s7_make_integer 2; s7_make_integer 3]) "+" 1)
  = ([Call (procedure 100) [s7_make_integer 2; s7_make_integer 3]],
     Returns (s7_make_integer 5)).
Proof. reflexivity. Qed.

(** C7. A class registered a method for [-], so [-] is bound to the
    wrapper, which captured the built-in.  [(- native-instance 3)] for an
    instance of another class, whose container has no [-] method: the
    wrapper looks the method up once and raises the wrong-type error,
    whose description asks for "a c-object that defines +" although the
    operator is [-]. *)
Theorem method_op_error_names_plus :
  rootlet st_minus !! "-" = Some (procedure 1)
  /\ functions st_minus !! 1%nat
     = Some (method_op_function Sub (procedure 101))
  /\ make_method_op_function st_minus eval Sub (procedure 101)
       (mkVarArgs t_s7_pointer (s7_list [a_v2; s7_make_integer 3]) "-" 1)
     = ([FindMethod (s7_let 0) "-"],
        Raises (s7_wrong_type_arg_error "-" 0 a_v2
                  "a c-object that defines +")).
Proof. repeat split. Qed.

(** ** Substitution of the built-in operators *)

Lemma method_op_fn_inj (op op' : MethodOp) :
  method_op_fn op = method_op_fn op' -> op = op'.
Proof. destruct op, op'; cbn; intros H; try reflexivity; discriminate. Qed.

Lemma times_registered_app (st : Scheme) (l : list string) (name : string)
    (lets' : gmap nat (gmap string s7_value))
    (rootlet' : gmap string s7_value) (functions' : list function_body)
    (ops : gset MethodOp) :
  times_registered
    (mk_Scheme lets' rootlet' functions' (registered st ++ l)%list ops) name
  = (times_registered st name + length (filter (λ n, n = name) l))%nat.
Proof.
  unfold times_registered. cbn [registered].
  rewrite filter_app, length_app. reflexivity.
Qed.

Lemma substitution_invariant_new (builtins : gmap string s7_value) :
  substitution_invariant (Scheme_new builtins).
Proof. intros op. reflexivity. Qed.

(** What one registration does, by cases on [substitured_ops]. *)
Lemma usertype_add_method_op_cases (st st' : Scheme) (let_ : s7_value)
    (op : MethodOp) (fn : native) :
  usertype_add_method_op st let_ op fn = Some st' ->
  exists id,
    let_ = s7_let id
    /\ lets st' = <[id := <[method_op_fn op := procedure (length (functions st))]>
                            (default ∅ (lets st !! id))]> (lets st)
    /\ ((op ∈ substitured_ops st
         /\ rootlet st' = rootlet st
         /\ registered st' = registered st
         /\ substitured_ops st' = substitured_ops st
         /\ functions st' = (functions st ++ [native_function fn])%list)
        \/ ((op ∉ substitured_ops st)
            /\ rootlet st' = <[method_op_fn op :=
                                 procedure (S (length (functions st)))]>
                               (rootlet st)
            /\ registered st' = (registered st ++ [method_op_fn op])%list
            /\ substitured_ops st' = {[op]} ∪ substitured_ops st
            /\ functions st' =
               (functions st ++ [native_function fn;
                                 method_op_function op
                                   (s7_name_to_value st (method_op_fn op))])%list)).
Proof.
  unfold usertype_add_method_op, make_function, s7_define.
  destruct let_; try discriminate. cbn.
  intros H. exists id. split; [reflexivity|].
  case_bool_decide as Hin; inversion H; subst st'; clear H; cbn.
  - split; [reflexivity|]. right. repeat split; try assumption.
    + rewrite length_app. cbn. f_equal. f_equal. lia.
    + rewrite <- app_assoc. reflexivity.
  - split; [reflexivity|]. left. repeat split.
    destruct (decide (op ∈ substitured_ops st)); [assumption|contradiction].
Qed.

Lemma usertype_add_method_op_invariant (st st' : Scheme) (let_ : s7_value)
    (op : MethodOp) (fn : native) :
  usertype_add_method_op st let_ op fn = Some st' ->
  substitution_invariant st ->
  substitution_invariant st' /\ substitured_ops st ⊆ substitured_ops st'
  /\ op ∈ substitured_ops st'.
Proof.
  intros Hstep Hinv.
  destruct (usertype_add_method_op_cases _ _ _ _ _ Hstep)
    as (id & _ & _ & [(Hin & _ & Hreg & Hops & _)|(Hnin & _ & Hreg & Hops & _)]).
  - split; [|split].
    + intros op'. unfold times_registered. rewrite Hreg, Hops. apply Hinv.
    + rewrite Hops. reflexivity.
    + rewrite Hops. assumption.
  - split; [|split].
    + intros op'. specialize (Hinv op'). unfold times_registered in *.
      rewrite Hreg, Hops, filter_app, length_app, Hinv. cbn.
      rewrite (bool_decide_ext (op' ∈ {[op]} ∪ substitured_ops st)
                 (op' = op \/ op' ∈ substitured_ops st))
        by (rewrite elem_of_union, elem_of_singleton; reflexivity).
      destruct (decide (op' = op)) as [Heq|Hne].
      * subst op'. rewrite decide_True by reflexivity.
        rewrite (bool_decide_eq_false_2 _ Hnin).
        rewrite bool_decide_eq_true_2 by (left; reflexivity). reflexivity.
      * rewrite decide_False
          by (intros E; apply Hne; symmetry; apply method_op_fn_inj;
              exact E).
        cbn. rewrite Nat.add_0_r.
        destruct (decide (op' ∈ substitured_ops st)) as [Hi|Hi].
        -- rewrite !bool_decide_eq_true_2;
             [reflexivity | right; assumption | assumption].
        -- rewrite !bool_decide_eq_false_2;
             [reflexivity | intros [?|?]; contradiction | assumption].
    + rewrite Hops. apply union_subseteq_r.
    + rewrite Hops. apply elem_of_union_l, elem_of_singleton. reflexivity.
Qed.

Lemma add_method_ops_invariant (regs : list (s7_value * MethodOp * native))
    (st st' : Scheme) :
  add_method_ops st regs = Some st' ->
  substitution_invariant st ->
  substitution_invariant st'
  /\ substitured_ops st ⊆ substitured_ops st'
  /\ (forall op, Exists (fun r => r.1.2 = op) regs -> op ∈ substitured_ops st').
Proof.
  revert st. induction regs as [|[[let_ op] fn] regs IH]; intros st Hrun Hinv.
  - inversion Hrun; subst. split; [assumption|]. split; [reflexivity|].
    intros op H. inversion H.
  - change (usertype_add_method_op st let_ op fn
            ≫= (λ st1, add_method_ops st1 regs) = Some st') in Hrun.
    destruct (usertype_add_method_op st let_ op fn) as [st1|] eqn:Hstep;
      [|discriminate].
    cbn in Hrun.
    destruct (usertype_add_method_op_invariant _ _ _ _ _ Hstep Hinv)
      as (Hinv1 & Hsub1 & Hop1).
    destruct (IH st1 Hrun Hinv1) as (Hinv' & Hsub' & Hall).
    split; [assumption|]. split; [etransitivity; eassumption|].
    intros op' H. inversion H as [? ? Hhd|? ? Htl]; subst.
    + apply Hsub'. exact Hop1.
    + apply Hall. assumption.
Qed.

(** C8. On one [Scheme] instance, after any sequence of method
    registrations, each arithmetic operator has gone through the
    registration primitive at most once; and a registration for an
    operator some earlier registration was for only stores the method in
    the container it is given: the root environment, the list of
    registered names and the set of substituted operators are left as
    they were. *)
Theorem operator_replaced_at_most_once (builtins : gmap string s7_value)
    (regs : list (s7_value * MethodOp * native)) (st : Scheme) :
  add_method_ops (Scheme_new builtins) regs = Some st ->
  (forall op, (times_registered st (method_op_fn op) <= 1)%nat)
  /\ (forall let_ op fn st',
        Exists (fun r => r.1.2 = op) regs ->
        usertype_add_method_op st let_ op fn = Some st' ->
        rootlet st' = rootlet st
        /\ registered st' = registered st
        /\ substitured_ops st' = substitured_ops st
        /\ s7_method st' let_ (method_op_fn op)
           = procedure (length (functions st))).
Proof.
  intros Hrun.
  destruct (add_method_ops_invariant _ _ _ Hrun
              (substitution_invariant_new builtins)) as (Hinv & _ & Hall).
  split.
  - intros op. rewrite (Hinv op). case_bool_decide; lia.
  - intros let_ op fn st' Hop Hstep. specialize (Hall op Hop).
    destruct (usertype_add_method_op_cases _ _ _ _ _ Hstep)
      as (id & -> & Hlets & [(_ & Hroot & Hreg & Hops & _)|(Hnin & _)]);
      [|contradiction].
    repeat split; try assumption.
    unfold s7_method. rewrite Hlets, lookup_insert_eq. cbn.
    rewrite lookup_insert_eq. reflexivity.
Qed.


(** C8 on a concrete run: three registrations, two of them for [+]. *)
Lemma operator_replaced_at_most_once_witness :
  (times_registered st_after_regs3 "+" <= 1)%nat
  /\ registered st_after_regs3 = ["+"; "-"].
Proof.
  split.
  - exact (proj1 (operator_replaced_at_most_once builtins regs3
                    st_after_regs3 ltac:(vm_compute; reflexivity)) Add).
  - vm_compute. reflexivity.
Defined.

(** ** The equality hook *)

(** C9. For a type with [operator==], registered under [tag], the hook
    installed by [make_usertype] answers, for a first operand that is an
    object of the type: true when both handles are the same cell; else
    false when the second is not a c-object carrying [tag]; else what
    [operator==] says of the two boxed objects. *)
Theorem is_equal_hook_cases (sc : s7_scheme) (T : ctype)
    (T_eq : Z -> Z -> bool) (tag : Z) (a b : s7_handle) (oa : Z)
    (la : s7_value) :
  get_type_tag sc T = Some tag ->
  cell a = c_object tag oa la ->
  exists hook,
    is_equal (make_usertype_hooks sc T (Some T_eq)) = Some hook
    /\ (address a = address b -> hook [a; b] = Some s7_t)
    /\ (address a <> address b ->
        s7_is_c_object (cell b) = false
        \/ s7_c_object_type (cell b) <> tag ->
        hook [a; b] = Some s7_f)
    /\ (address a <> address b ->
        forall ob lb, cell b = c_object tag ob lb ->
        hook [a; b] = Some (s7_make_boolean (T_eq oa ob))).
Proof.
  intros Htag Ha. eexists. split; [reflexivity|].
  unfold is_equal_hook. cbn [lookup list_lookup]. cbn.
  repeat split.
  - intros E. rewrite (proj2 (Z.eqb_eq _ _) E). reflexivity.
  - intros E Hb. rewrite (proj2 (Z.eqb_neq _ _) E), Htag. cbn.
    destruct Hb as [Hb|Hb].
    + rewrite Hb. reflexivity.
    + rewrite (proj2 (Z.eqb_neq _ _) Hb), orb_true_r. reflexivity.
  - intros E ob lb Hb. rewrite (proj2 (Z.eqb_neq _ _) E), Htag. cbn.
    rewrite Ha, Hb. cbn. rewrite Z.eqb_refl. reflexivity.
Qed.

(** C9 on concrete operands: two cells boxing equal [v2] objects compare
    equal, and an object compared with an integer does not. *)
Lemma is_equal_hook_cases_witness :
  exists hook,
    is_equal (make_usertype_hooks sc_v2 (t_usertype "v2") (Some Z.eqb))
    = Some hook
    /\ hook [h_a; h_a] = Some s7_t
    /\ hook [h_a; h_int] = Some s7_f
    /\ hook [h_a; h_b] = Some (s7_make_boolean true).
Proof.
  destruct (is_equal_hook_cases sc_v2 (t_usertype "v2") Z.eqb 0 h_a h_a 42
              (s7_let 0) eq_refl eq_refl) as (hook & Hh & Hsame & _ & _).
  destruct (is_equal_hook_cases sc_v2 (t_usertype "v2") Z.eqb 0 h_a h_int 42
              (s7_let 0) eq_refl eq_refl) as (hook1 & Hh1 & _ & Hother & _).
  destruct (is_equal_hook_cases sc_v2 (t_usertype "v2") Z.eqb 0 h_a h_b 42
              (s7_let 0) eq_refl eq_refl) as (hook2 & Hh2 & _ & _ & Heq).
  assert (hook1 = hook) as -> by congruence.
  assert (hook2 = hook) as -> by congruence.
  exists hook. split; [exact Hh|]. split; [|split].
  - apply Hsame. reflexivity.
  - apply Hother; [discriminate | left; reflexivity].
  - apply (Heq ltac:(discriminate) 42 (s7_let 0) eq_refl).
Defined.


(** * Further properties of the bridge *)

(** ** Arities *)

(** X1. [min_arity] is the least arity of the pack: it is the arity of one
    of the candidates and no candidate has a smaller one. *)
Theorem min_arity_is_least (F : native) (Fns : list native) :
  (exists G, In G (F :: Fns) /\ arity G = min_arity F Fns)
  /\ (forall G, In G (F :: Fns) -> (min_arity F Fns <= arity G)%nat).
Proof.
  unfold min_arity. revert F. induction Fns as [|H Fns IH]; intros F.
  - split.
    + exists F. split; [left; reflexivity | reflexivity].
    + intros G [<-|[]]. reflexivity.
  - destruct (IH H) as [(G & HG & HGa) Hle]. cbn [map vmin]. split.
    + destruct (Nat.min_spec (arity F) (vmin (arity H) (map arity Fns)))
        as [[_ E]|[_ E]]; rewrite E.
      * exists F. split; [left; reflexivity | reflexivity].
      * exists G. split; [right; exact HG | exact HGa].
    + intros G' [<-|HG'].
      * apply Nat.le_min_l.
      * etransitivity; [apply Nat.le_min_r | apply Hle; exact HG'].
Qed.

Lemma list_max1_ge (a : nat) (args : list nat) :
  (a <= list_max1 a args)%nat
  /\ Forall (fun b => (b <= list_max1 a args)%nat) args.
Proof.
  unfold list_max1. induction args as [|b rest [IHa IHr]]; cbn.
  - split; [reflexivity | constructor].
  - split; [lia|]. constructor; [lia|].
    eapply Forall_impl; [exact IHr|]. cbn. intros; lia.
Qed.

Lemma max_arity_le_max (F : native) (Fns : list native) :
  (max_arity F Fns <= list_max1 (arity F) (map arity Fns))%nat.
Proof.
  unfold max_arity.
  destruct Fns as [|G Fns]; cbn [map vmax]; [reflexivity|].
  destruct (list_max1_ge (arity F) (map arity (G :: Fns))) as [Ha Hr].
  cbn [map] in Ha, Hr. inversion Hr as [|? ? HG _]; subst.
  assert (Hv : (vmin (arity G) (map arity Fns) <= arity G)%nat).
  { destruct (map arity Fns); cbn; [reflexivity | apply Nat.le_min_l]. }
  cbn [map]. lia.
Qed.

(** X2. [max_arity] lies between [min_arity] and the true maximum, so the
    unsigned difference [MaxArgs - MinArgs] never wraps; and it is the
    true maximum for a pack of one or two candidates. *)
Theorem max_arity_bounds (F : native) (Fns : list native) :
  (min_arity F Fns <= max_arity F Fns)%nat
  /\ (max_arity F Fns <= list_max1 (arity F) (map arity Fns))%nat
  /\ ((length Fns <= 1)%nat ->
      max_arity F Fns = list_max1 (arity F) (map arity Fns)).
Proof.
  split; [apply vmin_le_vmax|]. split; [apply max_arity_le_max|].
  unfold max_arity.
  destruct Fns as [|G [|H Fns]]; cbn; intros Hl; try reflexivity; lia.
Qed.

(** X2 on a concrete pack: arities 1 and 2. *)
Lemma max_arity_bounds_witness :
  max_arity succ_s7_int [binary0] = 2%nat.
Proof.
  exact (proj2 (proj2 (max_arity_bounds succ_s7_int [binary0]))
           (le_n 1)).
Defined.

(** X3. What the registration of an overload set lets through.  Without a
    variadic candidate, an accepted call is never shorter than the
    shortest candidate nor longer than the longest; with one, every call
    of at least [min_arity] arguments is accepted. *)
Theorem overload_gate (F : native) (Fns : list native) (n : nat) :
  (existsb function_has_varargs (F :: Fns) = false ->
   accepts (define_function_overload F Fns) n = true ->
   (list_min1 (arity F) (map arity Fns) <= n
    <= list_max1 (arity F) (map arity Fns))%nat)
  /\ (existsb function_has_varargs (F :: Fns) = true ->
      (accepts (define_function_overload F Fns) n = true
       <-> (min_arity F Fns <= n)%nat)).
Proof.
  unfold define_function_overload, accepts. split; intros Hva.
  - rewrite Hva. cbn. intros H.
    apply andb_true_iff in H as [H1 H2].
    apply Nat.leb_le in H1. apply Nat.leb_le in H2.
    pose proof (max_arity_le_max F Fns) as Hmax.
    pose proof (vmin_le_vmax (arity F) (map arity Fns)) as Hmm.
    unfold min_arity, max_arity in *. rewrite vmin_is_min in *. lia.
  - rewrite Hva. cbn. rewrite andb_true_r. apply Nat.leb_le.
Qed.

(** X3 on a concrete set: arities 1 and 2, a call with two arguments. *)
Lemma overload_gate_witness :
  (list_min1 (arity succ_s7_int) (map arity [binary0]) <= 2
   <= list_max1 (arity succ_s7_int) (map arity [binary0]))%nat.
Proof.
  exact (proj1 (overload_gate succ_s7_int [binary0] 2) eq_refl eq_refl).
Defined.

(** ** Conversions *)




Lemma c_str_no_nul (s : string) : has_nul (c_str s) = false.
Proof.
  induction s as [|c s IH]; [reflexivity|]. cbn.
  destruct (Ascii.eqb c Ascii.zero) eqn:E; [reflexivity|].
  cbn. rewrite E, IH. reflexivity.
Qed.

Lemma c_str_fixed_iff (s : string) : c_str s = s <-> has_nul s = false.
Proof.
  split.
  - intros <-. apply c_str_no_nul.
  - induction s as [|c s IH]; [reflexivity|]. cbn.
    destruct (Ascii.eqb c Ascii.zero); [discriminate|].
    cbn. intros H. rewrite (IH H). reflexivity.
Qed.

(** X5. A [std::string_view] goes into the interpreter byte for byte, and
    comes back cut at its first NUL byte: what [to] returns is a prefix of
    the view without a NUL, followed in the view by nothing or by a NUL;
    it is the whole view exactly when the view has no NUL. *)
Theorem string_view_round_trip (S7_DEBUGGING : bool) (sc : s7_scheme)
    (s : string) :
  from sc (c_string_view s) = Some (Some (s7_make_string_with_length s))
  /\ exists back,
       to S7_DEBUGGING sc t_string_view (s7_make_string_with_length s)
       = Some (c_string_view back)
       /\ has_nul back = false
       /\ (exists rest, s = back ++ rest
                        /\ (rest = "" \/ exists rest',
                              rest = String Ascii.zero rest'))
       /\ (back = s <-> has_nul s = false).
Proof.
  split; [reflexivity|]. exists (c_str s).
  split; [destruct S7_DEBUGGING; reflexivity|].
  split; [apply c_str_no_nul|]. split; [|apply c_str_fixed_iff].
  induction s as [|c s (rest & Hs & Hrest)]; cbn.
  - exists "". split; [reflexivity | left; reflexivity].
  - destruct (Ascii.eqb_spec c Ascii.zero) as [->|Hc].
    + exists (String Ascii.zero s). split; [reflexivity|].
      right. exists s. reflexivity.
    + exists rest. split; [|exact Hrest].
      change (String c s = String c (c_str s ++ rest)).
      f_equal. exact Hs.
Qed.

Lemma to_validated (sc : s7_scheme) (T : ctype) (p : s7_value)
    (x : cvalue) :
  to true sc T p = Some x ->
  is_ sc T p = true /\ ctype_of x = T /\ to false sc T p = Some x.
Proof.
  unfold to. cbn [andb].
  destruct (is_ sc T p) eqn:His; cbn [negb]; [|discriminate].
  intros H. split; [reflexivity|]. split; [|exact H].
  destruct T; cbn in H; try discriminate;
    repeat match goal with
           | H : _ <$> ?o = Some _ |- _ =>
               destruct o; cbn in H; [|discriminate]
           end;
    inversion H; reflexivity.
Qed.

Lemma to_read_by_kind (S7_DEBUGGING : bool) (sc : s7_scheme) (T : ctype)
    (p : s7_value) :
  read_by_kind T = true -> is_ sc T p = true ->
  is_Some (to S7_DEBUGGING sc T p).
Proof.
  intros HT His. unfold to. rewrite His, andb_false_r.
  destruct T; try discriminate; destruct p; try discriminate;
    cbn; eexists; reflexivity.
Qed.

(** X6. In a validation build [to] gives a value only for a handle that
    [is] accepts, the value has the type asked for, and the performance
    build gives the same value; for the types read with the accessor of
    their kind (booleans, integers, strings) the converse holds: whenever
    [is] accepts the handle, [to] gives a value. *)
Theorem to_agrees_with_is (sc : s7_scheme) (T : ctype) (p : s7_value) :
  (forall x, to true sc T p = Some x ->
             is_ sc T p = true /\ ctype_of x = T
             /\ to false sc T p = Some x)
  /\ (read_by_kind T = true -> is_ sc T p = true ->
      is_Some (to true sc T p)).
Proof.
  split; [apply to_validated | apply to_read_by_kind].
Qed.

(** X6 on a concrete handle: the integer 5 read as an [int]. *)
Lemma to_agrees_with_is_witness :
  is_ sc0 t_int (s7_make_integer 5) = true
  /\ ctype_of (c_int 5) = t_int
  /\ to false sc0 t_int (s7_make_integer 5) = Some (c_int 5).
Proof.
  exact (proj1 (to_agrees_with_is sc0 t_int (s7_make_integer 5))
           (c_int 5) eq_refl).
Defined.



(** ** The type registry *)

Lemma make_usertype_tables (sc : s7_scheme) (T : ctype) (name : string)
    (l : s7_value) :
  make_usertype sc T name l =
  (mk_s7_scheme (<[ctype_name T := Z.of_nat (length (c_types sc))]> (tag sc))
     (<[ctype_name T := l]> (let_ sc)) (c_types sc ++ [name])%list,
   Z.of_nat (length (c_types sc))).
Proof. reflexivity. Qed.

(** X8. Registering a class and looking it up: after [make_usertype] the
    tag of the class is the one returned, its container the one given,
    its name the one given, and that name is what [type_to_string]
    answers for it. *)
Theorem make_usertype_lookup (sc : s7_scheme) (n name : string)
    (l : s7_value) :
  let sc' := (make_usertype sc (t_usertype n) name l).1 in
  let t := (make_usertype sc (t_usertype n) name l).2 in
  get_type_tag sc' (t_usertype n) = Some t
  /\ get_type_let sc' (t_usertype n) = Some l
  /\ get_type_name sc' (t_usertype n) = Some name
  /\ type_to_string sc' (t_usertype n) false = Some name.
Proof.
  rewrite make_usertype_tables. cbn [fst snd].
  assert (Hname : get_type_name
            (mk_s7_scheme
               (<[n := Z.of_nat (length (c_types sc))]> (tag sc))
               (<[n := l]> (let_ sc)) (c_types sc ++ [name])%list)
            (t_usertype n) = Some name).
  { unfold get_type_name, get_type_tag. cbn.
    rewrite lookup_insert_eq. cbn.
    destruct (Z.ltb_spec (Z.of_nat (length (c_types sc))) 0) as [H|_];
      [lia|].
    rewrite Nat2Z.id, lookup_app_r by reflexivity.
    rewrite Nat.sub_diag. reflexivity. }
  split; [|split; [|split; [exact Hname|]]].
  - unfold get_type_tag. cbn. apply lookup_insert_eq.
  - unfold get_type_let. cbn. apply lookup_insert_eq.
  - unfold type_to_string. cbn [scheme_type Ty.eqb]. exact Hname.
Qed.

(** X9. Registering a class leaves the others alone: if every tag of the
    registry is an index of the table of type names, this is still so
    afterwards, the new tag differs from the tag of every other class,
    and the tag, container and name of every other class are what they
    were. *)
Theorem make_usertype_fresh (sc : s7_scheme) (T T' : ctype)
    (name : string) (l : s7_value) :
  registry_ok sc ->
  ctype_name T' <> ctype_name T ->
  let sc' := (make_usertype sc T name l).1 in
  let t := (make_usertype sc T name l).2 in
  registry_ok sc'
  /\ get_type_tag sc' T' = get_type_tag sc T'
  /\ get_type_let sc' T' = get_type_let sc T'
  /\ get_type_name sc' T' = get_type_name sc T'
  /\ get_type_tag sc T' <> Some t.
Proof.
  intros Hok Hne. rewrite make_usertype_tables. cbn [fst snd].
  set (sc' := mk_s7_scheme _ _ _).
  assert (Htag : get_type_tag sc' T' = get_type_tag sc T').
  { unfold get_type_tag. cbn. apply lookup_insert_ne. congruence. }
  split; [|split; [|split; [|split]]].
  - intros k t. cbn. rewrite length_app. cbn.
    destruct (decide (ctype_name T = k)) as [<-|Hk].
    + rewrite lookup_insert_eq. intros E; inversion E; subst. lia.
    + rewrite lookup_insert_ne by exact Hk. intros E.
      specialize (Hok k t E). lia.
  - exact Htag.
  - unfold get_type_let. cbn. apply lookup_insert_ne. congruence.
  - unfold get_type_name. rewrite Htag. cbn.
    destruct (get_type_tag sc T') as [t'|] eqn:Ht'; [|reflexivity]. cbn.
    destruct (Z.ltb_spec t' 0) as [|Hpos]; [reflexivity|].
    specialize (Hok _ _ Ht'). apply lookup_app_l. lia.
  - intros E. specialize (Hok _ _ E). lia.
Qed.

(** The registry of [sc_v2] is in order. *)
Lemma registry_ok_sc_v2 : registry_ok sc_v2.
Proof.
  intros k t H. cbn in H. apply lookup_singleton_Some in H as [_ <-].
  cbn. lia.
Qed.

(** X9 on a concrete registry: a second class beside [v2]. *)
Lemma make_usertype_fresh_witness :
  get_type_tag (make_usertype sc_v2 (t_usertype "m3") "m3" (s7_let 1)).1
    (t_usertype "v2") = Some 0
  /\ (make_usertype sc_v2 (t_usertype "m3") "m3" (s7_let 1)).2 = 1.
Proof.
  split; [|reflexivity].
  rewrite (proj1 (proj2 (make_usertype_fresh sc_v2 (t_usertype "m3")
                           (t_usertype "v2") "m3" (s7_let 1)
                           registry_ok_sc_v2 ltac:(discriminate)))).
  reflexivity.
Defined.

(** X10. Registering a class a second time silently replaces its tag, and
    the objects boxed before no longer pass [is] for the class. *)
Theorem make_usertype_again (sc : s7_scheme) (n name : string)
    (l l0 : s7_value) (t0 o : Z) :
  registry_ok sc ->
  get_type_tag sc (t_usertype n) = Some t0 ->
  let sc' := (make_usertype sc (t_usertype n) name l).1 in
  is_ sc (t_usertype n) (c_object t0 o l0) = true
  /\ get_type_tag sc' (t_usertype n) <> Some t0
  /\ is_ sc' (t_usertype n) (c_object t0 o l0) = false.
Proof.
  intros Hok Ht0. rewrite make_usertype_tables. cbn [fst].
  specialize (Hok _ _ Ht0). unfold is_, get_type_tag in *. cbn in *.
  rewrite lookup_insert_eq, Ht0.
  split; [apply bool_decide_eq_true_2; reflexivity|].
  split; [intros E; inversion E; lia|].
  apply bool_decide_eq_false_2. intros E; inversion E; lia.
Qed.

(** X10 on a concrete registry: [v2] registered again. *)
Lemma make_usertype_again_witness :
  is_ (make_usertype sc_v2 (t_usertype "v2") "v2" (s7_let 5)).1
    (t_usertype "v2") a_v2 = false.
Proof.
  exact (proj2 (proj2 (make_usertype_again sc_v2 "v2" "v2" (s7_let 5)
                         (s7_let 0) 0 42 registry_ok_sc_v2 eq_refl))).
Defined.

(** X11. Round trip of a native object of a registered class: [from]
    boxes it under the tag and the container of the class, [is] accepts
    the box for that class, [to] gives the object back in both builds,
    and [type_of] reports a c-object. *)
Theorem boxed_round_trip (S7_DEBUGGING : bool) (sc : s7_scheme)
    (n : string) (o t : Z) (l : s7_value) :
  get_type_tag sc (t_usertype n) = Some t ->
  get_type_let sc (t_usertype n) = Some l ->
  from sc (c_native n o) = Some (Some (c_object t o l))
  /\ is_ sc (t_usertype n) (c_object t o l) = true
  /\ to S7_DEBUGGING sc (t_usertype n) (c_object t o l)
     = Some (c_native n o)
  /\ type_of (c_object t o l) = Ty.CObject.
Proof.
  intros Ht Hl.
  assert (His : is_ sc (t_usertype n) (c_object t o l) = true).
  { cbn. apply bool_decide_eq_true_2. exact Ht. }
  split; [|split; [exact His|split; [|reflexivity]]].
  - unfold get_type_tag, get_type_let in Ht, Hl. cbn in Ht, Hl.
    unfold from, make_c_object, get_type_tag, get_type_let. cbn.
    rewrite Ht. cbn. rewrite Hl. reflexivity.
  - unfold to. rewrite His. destruct S7_DEBUGGING; reflexivity.
Qed.

(** X11 on a concrete object: an instance of [v2]. *)
Lemma boxed_round_trip_witness :
  to true sc_v2 (t_usertype "v2") a_v2 = Some (c_native "v2" 42).
Proof.
  exact (proj1 (proj2 (proj2 (boxed_round_trip true sc_v2 "v2" 42 0
                                (s7_let 0) eq_refl eq_refl)))).
Defined.

(** ** The call adapter and the resolver *)

Lemma find_false_None_all (bools : list bool) :
  find_false bools = None -> Forall (fun b => b = true) bools.
Proof.
  induction bools as [|[] bools IH]; cbn; intros H.
  - constructor.
  - constructor; [reflexivity|]. apply IH.
    destruct (find_false bools); [discriminate | reflexivity].
  - discriminate.
Qed.

Lemma fill_array_length (n : nat) (args : s7_value) (arr : list s7_value) :
  fill_array n args = Some arr -> length arr = n.
Proof.
  revert args arr. induction n as [|n IH]; intros args arr H; cbn in H.
  - inversion H; reflexivity.
  - destruct args; try discriminate. cbn in H.
    destruct (fill_array n args2) as [arr'|] eqn:E; [|discriminate].
    cbn in H. inversion H; subst. cbn. f_equal. exact (IH _ _ E).
Qed.

Lemma zip_with_is_Forall2 (sc : s7_scheme) (Ts : list ctype)
    (vs : list s7_value) :
  length Ts = length vs ->
  Forall (fun b => b = true) (zip_with (is_ sc) Ts vs) ->
  Forall2 (fun T v => is_ sc T v = true) Ts vs.
Proof.
  revert vs. induction Ts as [|T Ts IH]; intros [|v vs] Hl H;
    try discriminate; [constructor|].
  cbn in H. inversion H; subst. constructor; [assumption|].
  apply IH; [cbn in Hl; lia | assumption].
Qed.

Lemma mapM_to_zip_inv (S7_DEBUGGING : bool) (sc : s7_scheme)
    (Ts : list ctype) (vs : list s7_value) (xs : list cvalue) :
  length Ts = length vs ->
  mapM (M := option) (fun '(T, p) => to S7_DEBUGGING sc T p) (zip Ts vs)
  = Some xs ->
  Forall3 (fun T v x => to S7_DEBUGGING sc T v = Some x) Ts vs xs.
Proof.
  revert vs xs. induction Ts as [|T Ts IH]; intros [|v vs] xs Hl H;
    try discriminate.
  - inversion H. constructor.
  - cbn in H. destruct (to S7_DEBUGGING sc T v) as [x|] eqn:Hx;
      [|discriminate]. cbn in H.
    destruct (mapM (fun '(T, p) => to S7_DEBUGGING sc T p) (zip Ts vs))
      as [xs'|] eqn:E; [|discriminate].
    cbn in H. inversion H; subst. constructor; [exact Hx|].
    apply IH; [cbn in Hl; lia | exact E].
Qed.

(** What [invoke] leaves in the trace: nothing when a conversion has no
    result, and otherwise the one invocation, on the converted
    arguments; an error it raises is the callable's own. *)
Lemma invoke_trace (S7_DEBUGGING : bool) (sc : s7_scheme) (F : native)
    (arr : list s7_value) :
  length arr = arity F ->
  (invoke S7_DEBUGGING sc F arr = ([], NoBehaviour))
  \/ (exists xs,
        Forall3 (fun T v x => to S7_DEBUGGING sc T v = Some x)
          (Args F) arr xs
        /\ trace (invoke S7_DEBUGGING sc F arr) = [Invoke (L F) xs]
        /\ (forall e, result (invoke S7_DEBUGGING sc F arr) = Raises e ->
                      lambda F xs = Raises e)).
Proof.
  intros Hlen. unfold invoke.
  destruct (mapM (fun '(T, p) => to S7_DEBUGGING sc T p) (zip (Args F) arr))
    as [xs|] eqn:E; [|left; reflexivity].
  right. exists xs. split.
  { apply mapM_to_zip_inv; [symmetry; exact Hlen | exact E]. }
  unfold bind, log, lift, ret, defined, trace, result. cbn.
  destruct (lambda F xs) as [r|e|]; cbn.
  - destruct (R F); cbn; try (split; [reflexivity | discriminate]);
      destruct (from sc r); cbn; (split; [reflexivity | discriminate]).
  - split; [reflexivity|]. intros e' H. inversion H; reflexivity.
  - split; [reflexivity | discriminate].
Qed.

(** X12. The native callable behind a fixed-arity adapter runs at most
    once per call, on the converted arguments; in a validation build it
    only runs when every argument passes [is] for its parameter; and in a
    performance build the adapter raises no error of its own: an error
    that comes out of it is one the callable raised. *)
Theorem call_fn_invokes_checked (S7_DEBUGGING : bool) (sc : s7_scheme)
    (F : native) (args : s7_value) :
  (trace (call_fn S7_DEBUGGING sc F args) = []
   \/ exists arr xs,
        fill_array (arity F) args = Some arr
        /\ Forall3 (fun T v x => to S7_DEBUGGING sc T v = Some x)
             (Args F) arr xs
        /\ trace (call_fn S7_DEBUGGING sc F args) = [Invoke (L F) xs]
        /\ (S7_DEBUGGING = true ->
            Forall2 (fun T v => is_ sc T v = true) (Args F) arr))
  /\ (S7_DEBUGGING = false ->
      forall e, result (call_fn S7_DEBUGGING sc F args) = Raises e ->
                exists xs, lambda F xs = Raises e).
Proof.
  unfold call_fn.
  destruct (fill_array (arity F) args) as [arr|] eqn:Hfill;
    [|split; [left; reflexivity | discriminate]].
  rewrite bind_defined_Some.
  pose proof (fill_array_length _ _ _ Hfill) as Hlen.
  destruct S7_DEBUGGING.
  - split; [|discriminate].
    destruct (find_false (zip_with (is_ sc) (Args F) arr)) as [i|] eqn:Hff.
    + left. run_bridge.
      destruct (mapM _ (Args F)); cbn; [|reflexivity].
      destruct (List_at args i); cbn; [|reflexivity].
      destruct (_ !! i); reflexivity.
    + destruct (invoke_trace true sc F arr Hlen) as [E|(xs & Hto & Ht & _)].
      * left. rewrite E. reflexivity.
      * right. exists arr, xs. repeat split; try assumption.
        intros _. apply zip_with_is_Forall2; [symmetry; exact Hlen|].
        apply find_false_None_all. exact Hff.
  - destruct (invoke_trace false sc F arr Hlen) as [E|(xs & Hto & Ht & He)].
    + rewrite E. split; [left; reflexivity | discriminate].
    + split.
      * right. exists arr, xs. repeat split; try assumption. discriminate.
      * intros _ e H. exists xs. apply He. exact H.
Qed.

(** X13. [_match_fn] checks in every build: the native callable of a
    fixed-arity candidate runs at most once, and only when the length it
    is given is the arity and every argument passes [is]; otherwise the
    candidate answers [nullptr] or nothing, with an empty trace. *)
Theorem match_fn_invokes_checked (S7_DEBUGGING : bool) (sc : s7_scheme)
    (F : native) (args : s7_value) (length : Z) :
  trace (_match_fn S7_DEBUGGING sc F args length) = []
  \/ exists arr xs,
       length = Z.of_nat (arity F)
       /\ fill_array (arity F) args = Some arr
       /\ Forall2 (fun T v => is_ sc T v = true) (Args F) arr
       /\ Forall3 (fun T v x => to S7_DEBUGGING sc T v = Some x)
            (Args F) arr xs
       /\ trace (_match_fn S7_DEBUGGING sc F args length)
          = [Invoke (L F) xs].
Proof.
  unfold _match_fn.
  destruct (Z.eqb_spec length (Z.of_nat (arity F))) as [Hl|Hl];
    cbn [negb]; [|left; reflexivity].
  destruct (fill_array (arity F) args) as [arr|] eqn:Hfill;
    [|left; reflexivity].
  rewrite bind_defined_Some.
  pose proof (fill_array_length _ _ _ Hfill) as Hlen.
  destruct (find_false (zip_with (is_ sc) (Args F) arr)) as [i|] eqn:Hff.
  - left. rewrite bool_decide_eq_true_2 by (eexists; reflexivity).
    reflexivity.
  - rewrite bool_decide_eq_false_2 by (intros [? ?]; discriminate).
    cbn [negb].
    destruct (invoke_trace S7_DEBUGGING sc F arr Hlen)
      as [E|(xs & Hto & Ht & _)].
    + left. rewrite E. reflexivity.
    + right. exists arr, xs. repeat split; try assumption.
      apply zip_with_is_Forall2; [symmetry; exact Hlen|].
      apply find_false_None_all. exact Hff.
Qed.



(** ** The variadic cursor *)

Lemma VarArgs_convert_defined (S7_DEBUGGING : bool) (sc : s7_scheme)
    (va : VarArgs) (r : s7_value) (x : cvalue) :
  to S7_DEBUGGING sc (va_T va) r = Some x ->
  VarArgs_convert S7_DEBUGGING sc va r = ret x.
Proof.
  intros Hto. unfold VarArgs_convert.
  assert (Hchk : S7_DEBUGGING && negb (is_ sc (va_T va) r) = false).
  { destruct S7_DEBUGGING; [|reflexivity].
    destruct (to_validated _ _ _ _ Hto) as [-> _]. reflexivity. }
  destruct (va_T va) eqn:ET; rewrite ?Hchk, ?Hto; try reflexivity.
  unfold to in Hto. cbn in Hto. rewrite andb_false_r in Hto.
  inversion Hto. reflexivity.
Qed.

Lemma VarArgs_convert_wrong (sc : s7_scheme) (va : VarArgs) (r : s7_value)
    (type : string) :
  is_ sc (va_T va) r = false ->
  type_to_string sc (va_T va) false = Some type ->
  VarArgs_convert true sc va r
  = raise (s7_wrong_type_arg_error (va_caller va) (va_arg_n va) r type).
Proof.
  intros His Hty. unfold VarArgs_convert.
  destruct (va_T va) eqn:ET; try discriminate;
    rewrite His; cbn [andb negb]; rewrite Hty; reflexivity.
Qed.

(** X15. Walking a cursor whose elements all convert: the walk raises
    nothing, invokes nothing, and yields the converted elements in list
    order, in both builds. *)
Theorem VarArgs_iterate_converts (S7_DEBUGGING : bool) (sc : s7_scheme)
    (T : ctype) (caller : string) (vs : list s7_value) (xs : list cvalue)
    (arg_n : Z) :
  Forall2 (fun v x => to S7_DEBUGGING sc T v = Some x) vs xs ->
  VarArgs_iterate S7_DEBUGGING sc T caller (s7_list vs) arg_n
  = ([], Returns xs).
Proof.
  intros H. revert arg_n. induction H as [|v x vs xs Hx _ IH]; intros arg_n.
  - reflexivity.
  - cbn [s7_list foldr VarArgs_iterate]. unfold VarArgs_car. cbn [va_p s7_car].
    rewrite bind_defined_Some.
    rewrite (VarArgs_convert_defined _ _ _ _ x) by exact Hx.
    rewrite bind_ret. fold (s7_list vs). rewrite IH. reflexivity.
Qed.

(** X15 on a concrete cursor: two integers read as [s7_int]. *)
Lemma VarArgs_iterate_converts_witness :
  VarArgs_iterate true sc0 t_s7_int "f"
    (s7_list [s7_make_integer 1; s7_make_integer 2]) 1
  = ([], Returns [c_s7_int 1; c_s7_int 2]).
Proof.
  apply (VarArgs_iterate_converts true sc0 t_s7_int "f"
           [s7_make_integer 1; s7_make_integer 2]
           [c_s7_int 1; c_s7_int 2] 1).
  repeat constructor.
Defined.

(** X16. Walking a cursor in a validation build, when the element at
    index [i] is the first that fails [is<T>]: the walk raises the
    wrong-type error carrying the caller's name, the position of the
    cursor plus [i], the offending element and the display name of [T]. *)
Theorem VarArgs_iterate_wrong_type (sc : s7_scheme) (T : ctype)
    (caller type : string) (vs : list s7_value) (i : nat) (v : s7_value)
    (arg_n : Z) :
  vs !! i = Some v ->
  is_ sc T v = false ->
  (forall j w, (j < i)%nat -> vs !! j = Some w ->
               is_Some (to true sc T w)) ->
  type_to_string sc T false = Some type ->
  VarArgs_iterate true sc T caller (s7_list vs) arg_n
  = ([], Raises (s7_wrong_type_arg_error caller (arg_n + Z.of_nat i) v type)).
Proof.
  intros Hv His Hbefore Hty. revert vs arg_n Hv Hbefore.
  induction i as [|i IH]; intros [|w vs] arg_n Hv Hbefore;
    try discriminate; cbn in Hv.
  - inversion Hv; subst w.
    cbn [s7_list foldr VarArgs_iterate]. unfold VarArgs_car.
    cbn [va_p s7_car]. rewrite bind_defined_Some.
    rewrite (VarArgs_convert_wrong sc _ v type) by assumption.
    cbn. rewrite Z.add_0_r. reflexivity.
  - destruct (Hbefore 0%nat w ltac:(lia) eq_refl) as [x Hx].
    cbn [s7_list foldr VarArgs_iterate]. unfold VarArgs_car.
    cbn [va_p s7_car]. rewrite bind_defined_Some.
    rewrite (VarArgs_convert_defined _ _ _ _ x) by exact Hx.
    rewrite bind_ret. fold (s7_list vs).
    rewrite (IH vs (arg_n + 1) Hv).
    + cbn. do 3 f_equal. lia.
    + intros j w' Hj Hw'. apply (Hbefore (S j) w'); [lia | exact Hw'].
Qed.

(** X16 on a concrete cursor: the second element is a boolean. *)
Lemma VarArgs_iterate_wrong_type_witness :
  VarArgs_iterate true sc0 t_s7_int "f"
    (s7_list [s7_make_integer 1; s7_make_boolean true]) 1
  = ([], Raises (s7_wrong_type_arg_error "f" 2 (s7_make_boolean true)
                   "integer")).
Proof.
  apply (VarArgs_iterate_wrong_type sc0 t_s7_int "f" "integer"
           [s7_make_integer 1; s7_make_boolean true] 1
           (s7_make_boolean true) 1).
  - reflexivity.
  - reflexivity.
  - intros [|j] w Hj Hw; [|lia]. inversion Hw. eexists; reflexivity.
  - reflexivity.
Defined.

(** ** Registration of one callable *)

(** X17. The arity declared for one callable and what the adapter reads.
    [define_function] lets a fixed-arity callable be called with exactly
    its arity, and then the adapter's array holds the whole argument
    list; it lets a variadic callable be called with any number of
    arguments, where [make_function] declares exactly the arity for every
    callable, variadic or not. *)
Theorem declared_arity_of_callable (F : native) :
  (function_has_varargs F = false ->
   forall vs : list s7_value,
     (accepts (define_function_arity F) (length vs) = true
      <-> length vs = arity F)
     /\ (accepts (define_function_arity F) (length vs) = true ->
         fill_array (arity F) (s7_list vs) = Some vs))
  /\ (function_has_varargs F = true ->
      forall n, accepts (define_function_arity F) n = true)
  /\ (forall n, accepts (make_function_arity F) n = true <-> n = arity F).
Proof.
  assert (Hexact : forall n,
            accepts (mk_declared (arity F) 0 false) n = true
            <-> n = arity F).
  { intros n. unfold accepts. cbn. rewrite andb_true_iff, !Nat.leb_le. lia. }
  unfold define_function_arity, make_function_arity.
  split; [|split].
  - intros ->. intros vs. split; [apply Hexact|].
    intros H. apply fill_array_exact. apply Hexact. exact H.
  - intros ->. intros n. reflexivity.
  - exact Hexact.
Qed.

(** X17 on a concrete callable: two arguments for a binary function. *)
Lemma declared_arity_of_callable_witness :
  fill_array (arity binary0)
    (s7_list [s7_make_integer 1; s7_make_integer 2])
  = Some [s7_make_integer 1; s7_make_integer 2].
Proof.
  exact (proj2 (proj1 (declared_arity_of_callable binary0) eq_refl
                  [s7_make_integer 1; s7_make_integer 2]) eq_refl).
Defined.

(** ** The substituted operator, continued *)

Lemma method_op_loop_builtin (st : Scheme)
    (s7_call : s7_value -> list s7_value -> outcome s7_value)
    (op : MethodOp) (old : s7_value) :
  (forall a b, exists r, s7_call old [a; b] = Returns r
                         /\ s7_is_c_object r = false) ->
  forall vs res,
    s7_is_c_object res = false ->
    Forall (fun v => s7_is_c_object v = false) vs ->
    exists t r,
      method_op_loop st s7_call op old res vs = (t, Returns r)
      /\ s7_is_c_object r = false
      /\ length t = length vs
      /\ Forall (fun e => exists a b, e = Call old [a; b]) t.
Proof.
  intros Hold vs. induction vs as [|v vs IH]; intros res Hres Hvs.
  - exists [], res. repeat split; [exact Hres | constructor].
  - inversion Hvs as [|? ? Hv Hvs']; subst.
    destruct (Hold res v) as (r1 & Hr1 & Hc1).
    destruct (IH r1 Hc1 Hvs') as (t & r & Hloop & Hr & Hlen & Hall).
    exists (Call old [res; v] :: t), r.
    cbn [method_op_loop].
    rewrite (method_op_step_builtin st s7_call op old res v Hres Hv), Hr1.
    rewrite bind_returned, Hloop. cbn.
    repeat split; [exact Hr | f_equal; exact Hlen |].
    constructor; [eexists; eexists; reflexivity | exact Hall].
Qed.

(** X18. Arithmetic on operands none of which is a native object, with an
    original operator that gives no native object back: the wrapper
    returns, never looks a method up, and calls the original operator
    once per argument after the first, and nothing else. *)
Theorem method_op_all_builtin (st : Scheme)
    (s7_call : s7_value -> list s7_value -> outcome s7_value)
    (op : MethodOp) (old : s7_value) (v : s7_value) (vs : list s7_value)
    (caller : string) (n : Z) :
  (forall a b, exists r, s7_call old [a; b] = Returns r
                         /\ s7_is_c_object r = false) ->
  Forall (fun v => s7_is_c_object v = false) (v :: vs) ->
  exists t r,
    make_method_op_function st s7_call op old
      (mkVarArgs t_s7_pointer (s7_list (v :: vs)) caller n)
    = (t, Returns r)
    /\ s7_is_c_object r = false
    /\ length t = length vs
    /\ Forall (fun e => exists a b, e = Call old [a; b]) t.
Proof.
  intros Hold Hall. inversion Hall as [|? ? Hv Hvs]; subst.
  rewrite make_method_op_function_fold.
  apply method_op_loop_builtin; assumption.
Qed.

(** X18 on a concrete call: [(+ 1 2 3)] with the integer addition of the
    examples. *)
Lemma method_op_all_builtin_witness :
  exists t r,
    make_method_op_function st_no_method
      (fun f args => match args with
                     | [s7_make_integer a; s7_make_integer b] =>
                         Returns (s7_make_integer (a + b))
                     | _ => Returns s7_unspecified
                     end)
      Add (procedure 100)
      (mkVarArgs t_s7_pointer
         (s7_list [s7_make_integer 1; s7_make_integer 2; s7_make_integer 3])
         "+" 1)
    = (t, Returns r)
    /\ s7_is_c_object r = false
    /\ length t = 2%nat
    /\ Forall (fun e => exists a b, e = Call (procedure 100) [a; b]) t.
Proof.
  apply (method_op_all_builtin st_no_method _ Add (procedure 100)
           (s7_make_integer 1) [s7_make_integer 2; s7_make_integer 3]
           "+" 1).
  - intros a b. destruct a, b; eexists; split; reflexivity.
  - repeat constructor.
Defined.

(** X19. The short calls of the wrapper, for every operator.  With one
    argument it returns that argument as it is and calls nothing, since
    the test for one argument compares the size with 0 again; with none
    it calls the original operator on the one-element list holding the
    empty list. *)
Theorem method_op_short_calls (st : Scheme)
    (s7_call : s7_value -> list s7_value -> outcome s7_value)
    (op : MethodOp) (old : s7_value) (v : s7_value) (caller : string)
    (n : Z) :
  make_method_op_function st s7_call op old
    (mkVarArgs t_s7_pointer (s7_list [v]) caller n) = ([], Returns v)
  /\ make_method_op_function st s7_call op old
       (mkVarArgs t_s7_pointer (s7_list []) caller n)
     = ([Call old [s7_nil]], s7_call old [s7_nil]).
Proof.
  split.
  - rewrite make_method_op_function_fold. reflexivity.
  - unfold make_method_op_function. cbn. run_bridge.
    destruct (s7_call old [s7_nil]); reflexivity.
Qed.

(** X20. A pair with a native object, for every operator: when the
    container of the left operand, if that is a native object, and of
    the right one otherwise, binds the operator to a procedure, the
    wrapper looks the method up once, there, and calls it once with both
    operands; what the call gives is the result. *)
Theorem method_op_native_pair (st : Scheme)
    (s7_call : s7_value -> list s7_value -> outcome s7_value)
    (op : MethodOp) (old a b p l m : s7_value) (caller : string) (n : Z) :
  s7_is_c_object a || s7_is_c_object b = true ->
  p = (if s7_is_c_object a then a else b) ->
  s7_c_object_let p = Some l ->
  s7_method st l (method_op_fn op) = m ->
  s7_is_procedure m = true ->
  make_method_op_function st s7_call op old
    (mkVarArgs t_s7_pointer (s7_list [a; b]) caller n)
  = ([FindMethod l (method_op_fn op); Call m [a; b]], s7_call m [a; b]).
Proof.
  intros Hobj Hp Hl Hm Hproc. rewrite make_method_op_function_fold.
  cbn [method_op_loop].
  rewrite (method_op_step_native st s7_call op old a b p l m)
    by assumption.
  destruct (s7_call m [a; b]); reflexivity.
Qed.

(** X20 on a concrete call: [(+ 3 native-instance)], the object on the
    right. *)
Lemma method_op_native_pair_witness :
  make_method_op_function
    (mk_Scheme {[0%nat := {["+" := procedure 7]}]} builtins [] [] {[Add]})
    eval Add (procedure 100)
    (mkVarArgs t_s7_pointer (s7_list [s7_make_integer 3; a_v2]) "+" 1)
  = ([FindMethod (s7_let 0) "+";
      Call (procedure 7) [s7_make_integer 3; a_v2]],
     Returns s7_unspecified).
Proof.
  apply (method_op_native_pair
           (mk_Scheme {[0%nat := {["+" := procedure 7]}]} builtins [] []
              {[Add]})
           eval Add (procedure 100) (s7_make_integer 3) a_v2 a_v2
           (s7_let 0) (procedure 7) "+" 1); reflexivity.
Defined.

(** ** Method registration, continued *)





(** The invariant behind X23. *)
Lemma substituted_is_wrapper_step (builtins : gmap string s7_value)
    (st st' : Scheme) (let_ : s7_value) (op : MethodOp) (fn : native) :
  usertype_add_method_op st let_ op fn = Some st' ->
  (forall op', op' ∉ substitured_ops st ->
               rootlet st !! method_op_fn op' = builtins !! method_op_fn op') ->
  (forall op', op' ∈ substitured_ops st ->
     exists i, rootlet st !! method_op_fn op' = Some (procedure i)
               /\ functions st !! i
                  = Some (method_op_function op'
                            (default s7_undefined
                               (builtins !! method_op_fn op')))) ->
  (forall op', op' ∉ substitured_ops st' ->
               rootlet st' !! method_op_fn op' = builtins !! method_op_fn op')
  /\ (forall op', op' ∈ substitured_ops st' ->
        exists i, rootlet st' !! method_op_fn op' = Some (procedure i)
                  /\ functions st' !! i
                     = Some (method_op_function op'
                               (default s7_undefined
                                  (builtins !! method_op_fn op')))).
Proof.
  intros Hstep Hout Hin.
  destruct (usertype_add_method_op_cases _ _ _ _ _ Hstep)
    as (id & _ & _ & [(Hop & Hroot & _ & Hops & Hf)
                     |(Hop & Hroot & _ & Hops & Hf)]);
    rewrite Hroot, Hops, Hf.
  - split; [exact Hout|]. intros op' Hop'.
    destruct (Hin op' Hop') as (i & Hr & Hi). exists i.
    split; [exact Hr|]. apply lookup_app_l_Some. exact Hi.
  - split.
    + intros op' Hop'.
      assert (op' <> op) by (intros ->; apply Hop';
        apply elem_of_union_l, elem_of_singleton; reflexivity).
      rewrite lookup_insert_ne
        by (intros E; apply method_op_fn_inj in E; congruence).
      apply Hout. intros Hc. apply Hop'. apply elem_of_union_r. exact Hc.
    + intros op' Hop'. apply elem_of_union in Hop' as [Hop'|Hop'].
      * apply elem_of_singleton in Hop'. subst op'.
        exists (S (length (functions st))). rewrite lookup_insert_eq.
        split; [reflexivity|].
        rewrite lookup_app_r by lia.
        replace (S (length (functions st)) - length (functions st))%nat
          with 1%nat by lia.
        cbn. unfold s7_name_to_value. rewrite (Hout op Hop). reflexivity.
      * destruct (Hin op' Hop') as (i & Hr & Hi). exists i.
        assert (op' <> op) by (intros ->; contradiction).
        rewrite lookup_insert_ne
          by (intros E; apply method_op_fn_inj in E; congruence).
        split; [exact Hr|]. apply lookup_app_l_Some. exact Hi.
Qed.

(** X23. On one instance, after any sequence of method registrations,
    every substituted operator is bound in the root environment to a
    wrapper whose captured original is the binding the operator had in
    the fresh interpreter: a wrapper never captures another wrapper. *)
Theorem substituted_is_wrapper (builtins : gmap string s7_value)
    (regs : list (s7_value * MethodOp * native)) (st : Scheme) (op : MethodOp) :
  add_method_ops (Scheme_new builtins) regs = Some st ->
  op ∈ substitured_ops st ->
  exists i,
    rootlet st !! method_op_fn op = Some (procedure i)
    /\ functions st !! i
       = Some (method_op_function op
                 (default s7_undefined (builtins !! method_op_fn op))).
Proof.
  intros Hrun.
  assert (Hinv : forall regs st0 st1,
    add_method_ops st0 regs = Some st1 ->
    (forall op', op' ∉ substitured_ops st0 ->
       rootlet st0 !! method_op_fn op' = builtins !! method_op_fn op') ->
    (forall op', op' ∈ substitured_ops st0 ->
       exists i, rootlet st0 !! method_op_fn op' = Some (procedure i)
                 /\ functions st0 !! i
                    = Some (method_op_function op'
                              (default s7_undefined
                                 (builtins !! method_op_fn op')))) ->
    forall op', op' ∈ substitured_ops st1 ->
       exists i, rootlet st1 !! method_op_fn op' = Some (procedure i)
                 /\ functions st1 !! i
                    = Some (method_op_function op'
                              (default s7_undefined
                                 (builtins !! method_op_fn op')))).
  { clear. intros regs. induction regs as [|[[let_ op] fn] regs IH];
      intros st0 st1 Hrun Hout Hin.
    - inversion Hrun; subst. exact Hin.
    - change (usertype_add_method_op st0 let_ op fn
              ≫= (λ s, add_method_ops s regs) = Some st1) in Hrun.
      destruct (usertype_add_method_op st0 let_ op fn) as [s|] eqn:Hstep;
        [|discriminate].
      cbn in Hrun.
      destruct (substituted_is_wrapper_step builtins _ _ _ _ _ Hstep Hout Hin)
        as [Hout' Hin'].
      exact (IH s st1 Hrun Hout' Hin'). }
  apply (Hinv regs (Scheme_new builtins) st Hrun).
  - intros op' _. reflexivity.
  - intros op' H. cbn in H. apply elem_of_empty in H. contradiction.
Qed.

(** X23 on a concrete run: [+] after the three registrations of the
    examples. *)
Lemma substituted_is_wrapper_witness :
  exists i,
    rootlet st_after_regs3 !! "+" = Some (procedure i)
    /\ functions st_after_regs3 !! i
       = Some (method_op_function Add (procedure 100)).
Proof.
  exact (substituted_is_wrapper builtins regs3 st_after_regs3 Add
           ltac:(vm_compute; reflexivity) ltac:(vm_compute; reflexivity)).
Defined.

(** ** The root environment *)

(** X24. [Scheme::operator[]] and the variable it makes.  Afterwards the
    name is bound to a value that is not the undefined one: to the value
    it had, the environment being left as it was, or to the empty list if
    it was unbound or undefined; no other name changes; and assigning
    through the variable any value that [from] converts to a handle is
    defined and makes that handle the value read back. *)
Theorem Scheme_index_binds (st : Scheme) (name : string) :
  let st' := (Scheme_index st name).1 in
  let var := (Scheme_index st name).2 in
  var_sym var = name
  /\ is_undefined (s7_let_ref st' name) = false
  /\ (is_undefined (s7_let_ref st name) = false -> st' = st)
  /\ (is_undefined (s7_let_ref st name) = true ->
      s7_let_ref st' name = s7_nil)
  /\ (forall other, other <> name ->
        s7_let_ref st' other = s7_let_ref st other)
  /\ (forall sc v object,
        stored (from sc v) = Some object ->
        exists st'',
          Variable_assign sc st' var v = Some st''
          /\ s7_let_ref st'' name = object
          /\ forall other, other <> name ->
                s7_let_ref st'' other = s7_let_ref st other).
Proof.
  unfold Scheme_index.
  destruct (is_undefined (s7_let_ref st name)) eqn:Hu; cbn [fst snd var_sym].
  - split; [reflexivity|]. unfold s7_let_ref at 1 2. cbn.
    rewrite lookup_insert_eq. cbn.
    split; [reflexivity|]. split; [discriminate|].
    split; [reflexivity|]. split.
    + intros other Hne. unfold s7_let_ref. cbn.
      rewrite lookup_insert_ne by congruence. reflexivity.
    + intros sc v object Hobj. unfold Variable_assign, s7_let_set.
      rewrite Hobj. cbn. rewrite lookup_insert_eq.
      eexists. split; [reflexivity|]. unfold s7_let_ref. cbn.
      rewrite lookup_insert_eq. split; [reflexivity|].
      intros other Hne. rewrite !lookup_insert_ne by congruence.
      reflexivity.
  - split; [reflexivity|]. split; [exact Hu|]. split; [reflexivity|].
    split; [discriminate|]. split; [reflexivity|].
    intros sc v object Hobj. unfold Variable_assign, s7_let_set.
    rewrite Hobj. cbn. unfold s7_let_ref in Hu.
    destruct (rootlet st !! name) as [old|] eqn:Hold; [|discriminate].
    eexists. split; [reflexivity|]. unfold s7_let_ref. cbn.
    rewrite lookup_insert_eq. split; [reflexivity|].
    intros other Hne. rewrite lookup_insert_ne by congruence. reflexivity.
Qed.

(** X24 on a concrete environment: a name that is not bound. *)
Lemma Scheme_index_binds_witness :
  s7_let_ref (Scheme_index (Scheme_new builtins) "x").1 "x" = s7_nil.
Proof.
  exact (proj1 (proj2 (proj2 (proj2
           (Scheme_index_binds (Scheme_new builtins) "x")))) eq_refl).
Defined.



Lemma is_undefined_value (sc : s7_scheme) (T : ctype) :
  T <> t_s7_pointer -> is_ sc T s7_undefined = false.
Proof. destruct T; intros H; try reflexivity. contradiction. Qed.

(** X26. A name that is not bound reads as the undefined value, which no
    type but [s7_pointer] accepts: [get_opt] answers the empty optional
    for it, in both builds, and [get] has no result in a validation
    build. *)
Theorem Scheme_get_missing (S7_DEBUGGING : bool) (sc : s7_scheme)
    (st : Scheme) (T : ctype) (name : string) :
  rootlet st !! name = None ->
  T <> t_s7_pointer ->
  Scheme_get_opt S7_DEBUGGING sc st T name = Some None
  /\ Scheme_get true sc st T name = None.
Proof.
  intros Hname HT. unfold Scheme_get_opt, Scheme_get, to_opt, to.
  unfold s7_name_to_value. rewrite Hname. cbn [default].
  rewrite (is_undefined_value sc T HT). split; reflexivity.
Qed.

(** X26 on a concrete environment: [get_opt<bool>] of a name never
    defined. *)
Lemma Scheme_get_missing_witness :
  Scheme_get_opt false sc0 (Scheme_new builtins) t_bool "nowhere"
  = Some None.
Proof.
  exact (proj1 (Scheme_get_missing false sc0 (Scheme_new builtins) t_bool
                  "nowhere" eq_refl ltac:(discriminate))).
Defined.

(** ** Kinds and their names *)

(** X27. The display names of the kinds are pairwise distinct: a name in
    a diagnostic or a signature stands for one kind only. *)
Theorem scheme_type_to_string_inj (a b : Ty.t) :
  scheme_type_to_string a = scheme_type_to_string b -> a = b.
Proof.
  destruct a; destruct b; intros H; try reflexivity;
    cbn in H; discriminate H.
Qed.

(** X27 on concrete kinds: the name of the integers is not that of
    another kind. *)
Lemma scheme_type_to_string_inj_witness : Ty.Integer = Ty.Integer.
Proof.
  exact (scheme_type_to_string_inj Ty.Integer Ty.Integer eq_refl).
Defined.

(** X28. The kind announced for a result type is the kind of the result:
    for a native value of a type [is] covers, or a [std::string], the
    handle [from] makes is of the kind [scheme_type] gives for that type
    as an output, the kind [make_signature] names in first position. *)
Theorem from_kind_is_scheme_type (sc : s7_scheme) (x : cvalue) :
  is_covers_result sc (ctype_of x) = true \/ ctype_of x = t_std_string ->
  exists v, from sc x = Some (Some v)
            /\ type_of v = scheme_type (ctype_of x) true.
Proof.
  intros [H|H].
  - destruct (from_is_covered sc x H) as (v & Hv & His).
    exists v. split; [exact Hv|].
    destruct x; cbn in H; try discriminate;
      cbn in Hv; try (inversion Hv; subst v; reflexivity).
    unfold make_c_object, get_type_tag, get_type_let in Hv. cbn in Hv.
    destruct (tag sc !! T) as [t|]; cbn in Hv; [|discriminate].
    destruct (let_ sc !! T) as [l|]; cbn in Hv; [|discriminate].
    inversion Hv; subst v. reflexivity.
  - destruct x; try discriminate. eexists. split; reflexivity.
Qed.

(** X28 on a concrete value: a [std::string]. *)
Lemma from_kind_is_scheme_type_witness :
  exists v, from sc0 (c_std_string "x") = Some (Some v)
            /\ type_of v = Ty.String.
Proof.
  exact (from_kind_is_scheme_type sc0 (c_std_string "x")
           (or_intror eq_refl)).
Defined.

(** ** The index hooks *)

(** X29. The assignment hook in a validation build checks the index
    before the value: a failing index raises the wrong-type error for
    position 1 whatever the value is; a passing index and a failing value
    raise it for position 2; in both cases under the name "T ref" and
    without assigning.  When both convert, in either build, the element
    is assigned and the hook returns the undefined value. *)
Theorem set_hook_checks (sc : s7_scheme) (T : subscriptable)
    (a index value : s7_value) (o : Z) :
  s7_c_object_value a = Some o ->
  (forall type,
     is_ sc (IndexType T) index = false ->
     type_to_string sc (IndexType T) false = Some type ->
     set_hook true sc T (s7_list [a; index; value])
     = ([], Raises (s7_wrong_type_arg_error "T ref" 1 index type)))
  /\ (forall type,
        is_ sc (IndexType T) index = true ->
        is_ sc (ValueType T) value = false ->
        type_to_string sc (ValueType T) false = Some type ->
        set_hook true sc T (s7_list [a; index; value])
        = ([], Raises (s7_wrong_type_arg_error "T ref" 2 value type)))
  /\ (forall S7_DEBUGGING i v o',
        to S7_DEBUGGING sc (IndexType T) index = Some i ->
        to S7_DEBUGGING sc (ValueType T) value = Some v ->
        assign T o i v = Returns o' ->
        set_hook S7_DEBUGGING sc T (s7_list [a; index; value])
        = ([], Returns (s7_undefined, o'))).
Proof.
  intros Ho. split; [|split].
  - intros type His Hty. unfold set_hook. cbn [s7_list foldr s7_car].
    rewrite bind_defined_Some, Ho, bind_defined_Some. cbn.
    rewrite His. cbn. rewrite Hty. reflexivity.
  - intros type Hi Hv Hty. unfold set_hook. cbn [s7_list foldr s7_car].
    rewrite bind_defined_Some, Ho, bind_defined_Some. cbn.
    rewrite Hi. cbn. rewrite Hv. cbn. rewrite Hty. reflexivity.
  - intros dbg i v o' Hi Hv Hassign.
    assert (Hchk : forall U p y, to dbg sc U p = Some y ->
                                 dbg && negb (is_ sc U p) = false).
    { intros U p y H. destruct dbg; [|reflexivity].
      destruct (to_validated _ _ _ _ H) as [-> _]. reflexivity. }
    unfold set_hook. cbn [s7_list foldr s7_car].
    rewrite bind_defined_Some, Ho, bind_defined_Some.
    change (s7_cadr (s7_cons a (s7_cons index (s7_cons value s7_nil))))
      with (Some index).
    change (s7_caddr (s7_cons a (s7_cons index (s7_cons value s7_nil))))
      with (Some value).
    rewrite bind_defined_Some, (Hchk _ _ _ Hi), bind_defined_Some.
    rewrite (Hchk _ _ _ Hv), Hv, bind_defined_Some, Hi, bind_defined_Some.
    rewrite Hassign. reflexivity.
Qed.

(** X29 on a concrete call: a boolean index and a boolean value. *)
Lemma set_hook_checks_witness :
  set_hook true sc0 counter
    (s7_list [a_v2; s7_make_boolean true; s7_make_boolean false])
  = ([], Raises (s7_wrong_type_arg_error "T ref" 1 (s7_make_boolean true)
                   "integer")).
Proof.
  exact (proj1 (set_hook_checks sc0 counter a_v2 (s7_make_boolean true)
                  (s7_make_boolean false) 42 eq_refl)
           "integer" eq_refl eq_refl).
Defined.

(** X30. The reference hook: in a validation build an index that fails
    [is] raises the wrong-type error for position 1 under the name
    "T ref", and the element is not read; when the index converts, in
    either build, the hook returns [from] of the element read. *)
Theorem ref_hook_checks (sc : s7_scheme) (T : subscriptable)
    (a index : s7_value) (o : Z) :
  s7_c_object_value a = Some o ->
  (forall type,
     is_ sc (IndexType T) index = false ->
     type_to_string sc (IndexType T) false = Some type ->
     ref_hook true sc T (s7_list [a; index])
     = ([], Raises (s7_wrong_type_arg_error "T ref" 1 index type)))
  /\ (forall S7_DEBUGGING i r p,
        to S7_DEBUGGING sc (IndexType T) index = Some i ->
        subscript T o i = Returns r ->
        from sc r = Some p ->
        ref_hook S7_DEBUGGING sc T (s7_list [a; index]) = ([], Returns p)).
Proof.
  intros Ho. split.
  - intros type His Hty. unfold ref_hook. cbn [s7_list foldr s7_car].
    rewrite bind_defined_Some, Ho, bind_defined_Some. cbn.
    rewrite His. cbn. rewrite Hty. reflexivity.
  - intros dbg i r p Hi Hr Hp.
    assert (Hchk : dbg && negb (is_ sc (IndexType T) index) = false).
    { destruct dbg; [|reflexivity].
      destruct (to_validated _ _ _ _ Hi) as [-> _]. reflexivity. }
    unfold ref_hook. cbn [s7_list foldr s7_car].
    rewrite bind_defined_Some, Ho, bind_defined_Some.
    change (s7_cadr (s7_cons a (s7_cons index s7_nil))) with (Some index).
    rewrite bind_defined_Some, Hchk, Hi, bind_defined_Some, Hr.
    rewrite bind_lift_Returns, Hp. reflexivity.
Qed.

(** X30 on a concrete call: the element 3 of a counter in state 42. *)
Lemma ref_hook_checks_witness :
  ref_hook true sc0 counter (s7_list [a_v2; s7_make_integer 3])
  = ([], Returns (Some (s7_make_integer 45))).
Proof.
  exact (proj2 (ref_hook_checks sc0 counter a_v2 (s7_make_integer 3) 42
                  eq_refl)
           true (c_s7_int 3) (c_s7_int 45) (Some (s7_make_integer 45))
           eq_refl eq_refl eq_refl).
Defined.
